(** * create_48k_test_audio: a sine tone written as a WAV file

    A shallow embedding of [examples/minimal/create_48k_test_audio.py].

    Conventions of the embedding.
    - Python [int] values are [Z]; bytes are [Byte.byte]; a [bytearray] is a
      [list byte].
    - A Python [float] is a binary64 value: a finite one is the real number
      it denotes ([Fin x]), beside the two infinities and NaN.  Every
      operation rounds its exact result to nearest, ties to even ([RN]), and
      overflows to an infinity: [fmul] is the float product, [float_of_int]
      the conversion of an [int] operand, [int_truediv] the true division
      of two [int]s and [int_of_float] the truncation [int(x)].  The sign
      of a zero is not kept; no operation of the program observes it.
    - [math.sin] belongs to the platform's C library and is a parameter of
      the program ([Libm]); what a statement needs of it ([sin_range],
      [sin_zero], [sin_accurate]) is among its hypotheses.
    - Exceptions are values of [PyError]; code that may raise returns a
      [result].
    - The four local constants of the function ([sample_rate], [duration],
      [frequency], [amplitude]) are gathered in the record
      [AudioParameters], with the types they have in the source ([int],
      [float], [int], [float]), so that properties quantified over the
      parameters can be stated; the two float parameters are finite.  The
      program itself is the body at [default_params].
    - The file system is an explicit state ([FS]) threaded through the
      [open]/[write] step; opening can be refused and writing can fail
      part-way.  The embedding stops at the end of the [with] block
      (line 63): the [print] calls of lines 65-69 are outside it. *)

From Stdlib Require Import String Ascii ZArith List Bool Lia.
From Stdlib Require Import Strings.Byte.
From Stdlib Require Import Reals Lra Machin.
Import ListNotations.

Local Open Scope Z_scope.

(** ** Exceptions and results *)

Inductive PyError : Type :=
| ZeroDivisionError
| OverflowError
| ValueError
| StructError            (* struct.error *)
| FileNotFoundError
| NotADirectoryError
| IsADirectoryError
| PermissionError
| OSError.               (* any other OSError: no space left, I/O error *)

(** [OSError] and its subclasses ([IOError] is an alias of [OSError]). *)
Definition is_OSError (e : PyError) : bool :=
  match e with
  | FileNotFoundError | NotADirectoryError | IsADirectoryError
  | PermissionError | OSError => true
  | ZeroDivisionError | OverflowError | ValueError | StructError => false
  end.

Inductive result (A : Type) : Type :=
| Ok (a : A)
| Raise (e : PyError).
Arguments Ok {A} a.
Arguments Raise {A} e.

Definition bind {A B : Type} (m : result A) (k : A -> result B) : result B :=
  match m with
  | Ok a => k a
  | Raise e => Raise e
  end.

Notation "x <- m ;; k" := (bind m (fun x => k))
  (at level 61, m at next level, right associativity).

(** A loop whose body may raise: the first exception stops it. *)
Fixpoint mapM {A B : Type} (f : A -> result B) (l : list A) : result (list B) :=
  match l with
  | [] => Ok []
  | a :: t => b <- f a ;; bs <- mapM f t ;; Ok (b :: bs)
  end.

(** ** Bytes and [struct.pack] *)

Definition byte_of_Z (z : Z) : byte :=
  match Byte.of_N (Z.to_N (Z.land z 255)) with
  | Some b => b
  | None => x00
  end.

Definition Z_of_byte (b : byte) : Z := Z.of_N (Byte.to_N b).

(** Little-endian emission of the [n] low bytes of [v], the way the packer
    does it: store the low byte, shift right by eight, repeat. *)
Fixpoint le_bytes (n : nat) (v : Z) : list byte :=
  match n with
  | O => []
  | S k => byte_of_Z (Z.land v 255) :: le_bytes k (Z.shiftr v 8)
  end.

(** [struct.pack('<I', v)] *)
Definition pack_I (v : Z) : result (list byte) :=
  if (0 <=? v) && (v <=? 4294967295) then Ok (le_bytes 4 v) else Raise StructError.

(** [struct.pack('<H', v)] *)
Definition pack_H (v : Z) : result (list byte) :=
  if (0 <=? v) && (v <=? 65535) then Ok (le_bytes 2 v) else Raise StructError.

(** [struct.pack('<h', v)] *)
Definition pack_h (v : Z) : result (list byte) :=
  if (-32768 <=? v) && (v <=? 32767) then Ok (le_bytes 2 v) else Raise StructError.

(** A bytes literal such as [b'RIFF']. *)
Definition bytes_lit (s : string) : list byte := list_byte_of_string s.

(** ** Reading a byte sequence back (used to state the layout) *)

Fixpoint le_value (bs : list byte) : Z :=
  match bs with
  | [] => 0
  | b :: t => Z_of_byte b + 256 * le_value t
  end.

Definition slice (off len : nat) (l : list byte) : list byte :=
  firstn len (skipn off l).

Definition u32_at (off : nat) (l : list byte) : Z := le_value (slice off 4 l).
Definition u16_at (off : nat) (l : list byte) : Z := le_value (slice off 2 l).
Definition i16_at (off : nat) (l : list byte) : Z :=
  let v := u16_at off l in if v <? 32768 then v else v - 65536.

(** ** binary64 arithmetic *)

(** Powers of two. *)
Definition bpow (e : Z) : R := powerRZ 2 e.
Arguments bpow : simpl never.

(** The binade of a non-zero [x]: [bpow (mag x) <= |x| < bpow (mag x + 1)]. *)
Definition mag (x : R) : Z := Int_part (ln (Rabs x) / ln 2).

(** The exponent of the last place of [x]: 53 significant bits, and never
    below the exponent of the subnormal numbers. *)
Definition cexp (x : R) : Z := Z.max (mag x - 52) (-1074).

(** The nearest integer, ties to even. *)
Definition rne (y : R) : Z :=
  let f := Int_part y in
  if Rlt_dec (y - IZR f) (1 / 2) then f
  else if Rlt_dec (1 / 2) (y - IZR f) then f + 1
  else if Z.even f then f else f + 1.

(** Rounding to nearest, ties to even, before the overflow test. *)
Definition RN (x : R) : R := (IZR (rne (x / bpow (cexp x))) * bpow (cexp x))%R.

Inductive float : Type :=
| Fin (x : R)
| Inf (negative : bool)
| NaN.

Definition is_negative (x : R) : bool := if Rlt_dec x 0 then true else false.

(** The float for an exact result [x]: rounded, infinite when the rounded
    value is beyond the largest finite number. *)
Definition round_to_float (x : R) : float :=
  if Rlt_dec (Rabs (RN x)) (bpow 1024) then Fin (RN x) else Inf (is_negative x).

(** [a * b] on floats.  It never raises: an overflow gives an infinity,
    and infinity times zero is NaN. *)
Definition fmul (a b : float) : float :=
  match a, b with
  | NaN, _ => NaN
  | _, NaN => NaN
  | Fin x, Fin y => round_to_float (x * y)
  | Inf s, Fin y => if Req_dec_T y 0 then NaN else Inf (xorb s (is_negative y))
  | Fin x, Inf s => if Req_dec_T x 0 then NaN else Inf (xorb (is_negative x) s)
  | Inf s, Inf s' => Inf (xorb s s')
  end.

(** An [int] operand of a float operation is converted first
    ("int too large to convert to float" otherwise). *)
Definition float_of_int (z : Z) : result float :=
  match round_to_float (IZR z) with
  | Fin x => Ok (Fin x)
  | _ => Raise OverflowError
  end.

(** [a / b] on two [int]s: the quotient, correctly rounded. *)
Definition int_truediv (a b : Z) : result float :=
  if b =? 0 then Raise ZeroDivisionError
  else match round_to_float (IZR a / IZR b) with
       | Fin x => Ok (Fin x)
       | _ => Raise OverflowError
       end.

(** The integer part of a real, truncated toward zero. *)
Definition py_int (x : R) : Z :=
  if Rle_dec 0 x then Int_part x else Z.opp (Int_part (Ropp x)).

(** [int(x)] for a float [x]. *)
Definition int_of_float (x : float) : result Z :=
  match x with
  | Fin r => Ok (py_int r)
  | Inf _ => Raise OverflowError
  | NaN => Raise ValueError
  end.

(** [math.pi], the binary64 value 3.141592653589793. *)
Definition math_pi : R := (884279719003555 / 281474976710656)%R.

(** The C library: its sine on finite arguments. *)
Class Libm : Type := { libm_sin : R -> R }.

(** [math.sin(x)]: "math domain error" on an infinity, NaN on NaN. *)
Definition math_sin {L : Libm} (x : float) : result float :=
  match x with
  | Fin r => Ok (Fin (libm_sin r))
  | Inf _ => Raise ValueError
  | NaN => Ok NaN
  end.

(** [range(n)]: [0, 1, ..., n-1], empty when [n <= 0]. *)
Definition range (n : Z) : list Z := map Z.of_nat (seq 0 (Z.to_nat n)).

(** ** The program *)

Record AudioParameters : Type := {
  sample_rate : Z;
  duration : R;
  frequency : Z;
  amplitude : R
}.

(** The binary64 value of the literal [0.3]. *)
Definition lit_0_3 : R := (5404319552844595 / 18014398509481984)%R.

(** Lines 12-15. *)
Definition default_params : AudioParameters :=
  {| sample_rate := 48000; duration := 1; frequency := 440; amplitude := lit_0_3 |}.

(** The product [sample_rate * duration] of line 18. *)
Definition product (p : AudioParameters) : result float :=
  sr <- float_of_int (sample_rate p) ;;
  Ok (fmul sr (Fin (duration p))).

(** Line 18: [num_samples = int(sample_rate * duration)]. *)
Definition num_samples (p : AudioParameters) : result Z :=
  x <- product p ;; int_of_float x.

(** Line 24 and the argument of [math.sin] on line 26:
    [t = i / sample_rate], then [2 * math.pi * frequency * t], evaluated
    from the left. *)
Definition angle (p : AudioParameters) (i : Z) : result float :=
  t <- int_truediv i (sample_rate p) ;;
  f <- float_of_int (frequency p) ;;
  Ok (fmul (fmul (fmul (Fin 2) (Fin math_pi)) f) t).

(** Lines 24-28 up to the product [value * 32767]. *)
Definition scaled_value {L : Libm} (p : AudioParameters) (i : Z) : result float :=
  w <- angle p i ;;
  s <- math_sin w ;;
  let value := fmul (Fin (amplitude p)) s in
  Ok (fmul value (Fin 32767)).

(** Lines 24-28, the body of the generation loop at index [i]. *)
Definition sample_at {L : Libm} (p : AudioParameters) (i : Z) : result Z :=
  x <- scaled_value p i ;; int_of_float x.

(** Lines 18-29. *)
Definition gen_samples {L : Libm} (p : AudioParameters) : result (list Z) :=
  n <- num_samples p ;; mapM (sample_at p) (range n).

(** Lines 58-59: the loop appending each packed sample to the bytearray. *)
Fixpoint extend_samples (wav : list byte) (samples : list Z) : result (list byte) :=
  match samples with
  | [] => Ok wav
  | s :: rest => b <- pack_h s ;; extend_samples (wav ++ b) rest
  end.

(** Lines 33-59: the bytearray [wav_data] once the samples are known. *)
Definition encode_wav (sr n : Z) (samples : list Z) : result (list byte) :=
  let data_size := n * 2 in
  let file_size := 36 + data_size in
  let wav := [] in
  let wav := wav ++ bytes_lit "RIFF" in
  b <- pack_I file_size ;; let wav := wav ++ b in
  let wav := wav ++ bytes_lit "WAVE" in
  let wav := wav ++ bytes_lit "fmt " in
  b <- pack_I 16 ;; let wav := wav ++ b in
  b <- pack_H 1 ;; let wav := wav ++ b in
  b <- pack_H 1 ;; let wav := wav ++ b in
  b <- pack_I sr ;; let wav := wav ++ b in
  b <- pack_I (sr * 2) ;; let wav := wav ++ b in
  b <- pack_H 2 ;; let wav := wav ++ b in
  b <- pack_H 16 ;; let wav := wav ++ b in
  let wav := wav ++ bytes_lit "data" in
  b <- pack_I data_size ;; let wav := wav ++ b in
  extend_samples wav samples.

(** Lines 12-59: everything before the file is opened. *)
Definition wav_data {L : Libm} (p : AudioParameters) : result (list byte) :=
  n <- num_samples p ;;
  samples <- mapM (sample_at p) (range n) ;;
  encode_wav (sample_rate p) n samples.

(** ** The file system *)

(** The part of the file system the program can reach, by path as the
    program spells it.  Two spellings of one path, or two links to one
    file, are two keys: nothing is said of any path but the one the
    program opens and its parent directory. *)
Record FS : Type := {
  dirs : string -> bool;                    (* existing directories *)
  files : string -> option (list byte);     (* regular files and their content *)
  can_write : string -> bool;               (* may this path be created or overwritten *)
  room : string -> Z                        (* bytes the device takes for this file *)
}.

Definition set_file (fs : FS) (path : string) (data : list byte) : FS :=
  {| dirs := dirs fs;
     files := fun q => if String.eqb q path then Some data else files fs q;
     can_write := can_write fs;
     room := room fs |}.

Fixpoint has_slash (s : string) : bool :=
  match s with
  | EmptyString => false
  | String c r => Ascii.eqb c "/"%char || has_slash r
  end.

(** The directory part of a path: what precedes its last slash. *)
Fixpoint dirname (s : string) : string :=
  match s with
  | EmptyString => EmptyString
  | String c r => if has_slash r then String c (dirname r) else EmptyString
  end.

Definition dir_exists (fs : FS) (d : string) : bool :=
  String.eqb d EmptyString || dirs fs d.

Definition is_file (fs : FS) (q : string) : bool :=
  match files fs q with Some _ => true | None => false end.

(** [open(path, 'wb')]: no directory is created; an existing file is
    truncated, a missing one is created empty. *)
Definition open_wb (fs : FS) (path : string) : result FS :=
  if is_file fs (dirname path) then Raise NotADirectoryError
  else if negb (dir_exists fs (dirname path)) then Raise FileNotFoundError
  else if dirs fs path then Raise IsADirectoryError
  else if negb (can_write fs path) then Raise PermissionError
  else Ok (set_file fs path []).

(** [f.write(data)] on the file just opened, followed by the close at the
    end of the [with] block.  When the device takes fewer bytes than
    [data] has, the bytes it took stay in the file and an [OSError]
    leaves the block. *)
Definition write_all (fs : FS) (path : string) (data : list byte) : FS * result unit :=
  if Z.of_nat (length data) <=? room fs path then (set_file fs path data, Ok tt)
  else (set_file fs path (firstn (Z.to_nat (room fs path)) data), Raise OSError).

Definition output_path : string := "debug-audio/test-static.wav".

(** Lines 10-63 for arbitrary parameters: the final file system and, when an
    exception escapes, that exception. *)
Definition create_test_audio {L : Libm} (p : AudioParameters) (fs : FS)
    : FS * result unit :=
  match wav_data p with
  | Raise e => (fs, Raise e)
  | Ok data =>
      match open_wb fs output_path with
      | Raise e => (fs, Raise e)
      | Ok fs1 => write_all fs1 output_path data
      end
  end.

(** Lines 10-63 of [create_48k_test_audio()]: the function up to the end of
    its [with] block.  The five [print] calls that follow (lines 65-69)
    touch neither the bytes nor the file. *)
Definition create_48k_test_audio {L : Libm} (fs : FS) : FS * result unit :=
  create_test_audio default_params fs.

(** ** Notions used by the statements *)

(** What the statements ask of the C library's sine. *)
Definition sin_range (L : Libm) : Prop := forall x, (-1 <= libm_sin x <= 1)%R.
Definition sin_zero (L : Libm) : Prop := libm_sin 0 = 0%R.
Definition sin_accurate (L : Libm) : Prop :=
  forall x, (Rabs (libm_sin x - sin x) <= / 1099511627776)%R.   (* 2^-40 *)

(** A correctly rounded sine. *)
Definition rounded_sin : Libm := {| libm_sin := fun x => RN (sin x) |}.

(** A real number that is a binary64 value, whatever its size. *)
Definition representable (x : R) : Prop :=
  exists m e : Z, x = (IZR m * bpow e)%R /\ Z.abs m <= 2 ^ 53 /\ -1074 <= e.

(** [z] is an integer nearest to [x]: what [round(x)] returns, whichever way
    ties are broken. *)
Definition nearest_int (x : R) (z : Z) : Prop := (Rabs (x - IZR z) <= 1 / 2)%R.

(** AudioParameters as the data model describes them. *)
Definition valid_params (p : AudioParameters) : Prop :=
  0 < sample_rate p /\ (0 < duration p)%R /\ 0 < frequency p /\
  (0 < amplitude p <= 1)%R.

Definition in_i16 (s : Z) : Prop := -32768 <= s <= 32767.

(** The 44 bytes emitted by lines 39-55, seen as one right-nested append. *)
Definition header_bytes (sr n : Z) : list byte :=
  bytes_lit "RIFF" ++ le_bytes 4 (36 + n * 2) ++ bytes_lit "WAVE" ++
  bytes_lit "fmt " ++ le_bytes 4 16 ++ le_bytes 2 1 ++ le_bytes 2 1 ++
  le_bytes 4 sr ++ le_bytes 4 (sr * 2) ++ le_bytes 2 2 ++ le_bytes 2 16 ++
  bytes_lit "data" ++ le_bytes 4 (n * 2).

Definition fits_u32 (v : Z) : Prop := 0 <= v <= 4294967295.

(** The fixed 44-byte WAV layout, read back from a byte sequence [out]
    for sample rate [sr] and [n] samples. *)
Definition header_layout (out : list byte) (sr n : Z) : Prop :=
  let data_size := 2 * n in
  let file_size := 36 + data_size in
  slice 0 4 out = bytes_lit "RIFF" /\
  u32_at 4 out = file_size /\
  slice 8 4 out = bytes_lit "WAVE" /\
  slice 12 4 out = bytes_lit "fmt " /\
  u32_at 16 out = 16 /\
  u16_at 20 out = 1 /\
  u16_at 22 out = 1 /\
  u32_at 24 out = sr /\
  u32_at 28 out = sr * 2 /\
  u16_at 32 out = 2 /\
  u16_at 34 out = 16 /\
  slice 36 4 out = bytes_lit "data" /\
  u32_at 40 out = data_size.

(** Everything the packer needs in order not to raise. *)
Definition encodable (sr n : Z) (samples : list Z) : Prop :=
  0 <= sr /\ sr * 2 <= 4294967295 /\
  0 <= n /\ 36 + n * 2 <= 4294967295 /\
  Forall in_i16 samples.

(** The angle [2 pi f i / sample_rate] the loop body approximates, with
    [math.pi] for pi. *)
Definition ideal_angle (p : AudioParameters) (i : Z) : R :=
  (2 * math_pi * IZR (frequency p) * (IZR i / IZR (sample_rate p)))%R.

(** ** Particular inputs *)

(** Three samples per second for a quarter of a second. *)
Definition short_params : AudioParameters :=
  {| sample_rate := 3; duration := 1 / 4; frequency := 440; amplitude := lit_0_3 |}.

(** The compiled-in parameters with the sample rate set to zero. *)
Definition zero_rate_params : AudioParameters :=
  {| sample_rate := 0; duration := 1; frequency := 440; amplitude := lit_0_3 |}.

(** The compiled-in parameters with a negative duration. *)
Definition negative_duration_params : AudioParameters :=
  {| sample_rate := 48000; duration := -1; frequency := 440; amplitude := lit_0_3 |}.


(** The compiled-in parameters for half a second. *)
Definition half_second_params : AudioParameters :=
  {| sample_rate := 48000; duration := 1 / 2; frequency := 440; amplitude := lit_0_3 |}.

(** The compiled-in parameters with the frequency 10^308. *)
Definition huge_frequency_params : AudioParameters :=
  {| sample_rate := 48000; duration := 1; frequency := 10 ^ 308; amplitude := lit_0_3 |}.

(** A file system where the output directory exists and everything may be
    written, and one with no directory at all. *)
Definition fs_ready : FS :=
  {| dirs := fun d => String.eqb d "debug-audio";
     files := fun _ => None;
     can_write := fun _ => true;
     room := fun _ => 1000000 |}.

Definition fs_bare : FS :=
  {| dirs := fun _ => false;
     files := fun _ => None;
     can_write := fun _ => true;
     room := fun _ => 1000000 |}.

(** The parent directory of the output path is missing or is not a
    directory. *)
Definition parent_missing (fs : FS) : Prop :=
  is_file fs (dirname output_path) = true \/
  dir_exists fs (dirname output_path) = false.

(** The output path cannot take [size] bytes: it is a directory, it may
    not be written, or the device has no room for them. *)
Definition not_writable (fs : FS) (size : Z) : Prop :=
  dirs fs output_path = true \/
  can_write fs output_path = false \/
  room fs output_path < size.

(** * Properties *)
Lemma Ok_inj {A : Type} (a b : A) : Ok a = Ok b -> a = b.
Proof. intros H. injection H. auto. Qed.

(** ** Basic facts about bytes *)

Lemma Z_of_byte_of_Z (z : Z) : Z_of_byte (byte_of_Z z) = z mod 256.
Proof.
  unfold Z_of_byte, byte_of_Z.
  assert (Hl : Z.land z 255 = z mod 256) by (apply (Z.land_ones z 8); lia).
  assert (Hr : 0 <= z mod 256 < 256) by (apply Z.mod_pos_bound; lia).
  rewrite Hl.
  destruct (Byte.of_N (Z.to_N (z mod 256))) as [b|] eqn:E.
  - apply Byte.to_of_N in E. rewrite E. rewrite Z2N.id; lia.
  - apply Byte.of_N_None_iff in E. lia.
Qed.

Lemma le_bytes_length (n : nat) (v : Z) : length (le_bytes n v) = n.
Proof.
  revert v; induction n as [|n IH]; intros v; simpl; [reflexivity|].
  now rewrite IH.
Qed.

Lemma le_value_le_bytes (n : nat) (v : Z) :
  le_value (le_bytes n v) = v mod 2 ^ (8 * Z.of_nat n).
Proof.
  revert v; induction n as [|n IH]; intros v.
  - simpl. now rewrite Z.mod_1_r.
  - cbn [le_bytes le_value]. rewrite IH, Z_of_byte_of_Z, Z.shiftr_div_pow2 by lia.
    assert (Hl : Z.land v 255 = v mod 256) by (apply (Z.land_ones v 8); lia).
    rewrite Hl, Z.mod_mod by lia.
    replace (8 * Z.of_nat (S n)) with (8 + 8 * Z.of_nat n) by lia.
    rewrite Z.pow_add_r by lia.
    change (2 ^ 8) with 256.
    rewrite (Z.rem_mul_r v 256 (2 ^ (8 * Z.of_nat n))) by lia.
    reflexivity.
Qed.

(** ** Truncation toward zero *)

Lemma Int_part_bounds (x : R) : (IZR (Int_part x) <= x < IZR (Int_part x) + 1)%R.
Proof. destruct (base_Int_part x) as [H1 H2]. lra. Qed.

Lemma Int_part_unique (x : R) (z : Z) :
  (IZR z <= x < IZR z + 1)%R -> Int_part x = z.
Proof. intros H. symmetry. apply Int_part_spec. lra. Qed.

Lemma py_int_nonneg (x : R) :
  (0 <= x)%R -> (IZR (py_int x) <= x < IZR (py_int x) + 1)%R /\ 0 <= py_int x.
Proof.
  intros Hx. unfold py_int. destruct (Rle_dec 0 x) as [_|N]; [|contradiction].
  pose proof (Int_part_bounds x) as B. split; [exact B|].
  destruct (Z_lt_le_dec (Int_part x) 0) as [L|L]; [|exact L].
  exfalso. assert (Int_part x + 1 <= 0) as L1 by lia.
  apply IZR_le in L1. rewrite plus_IZR in L1. lra.
Qed.

Lemma py_int_nonpos (x : R) :
  (x <= 0)%R -> (IZR (py_int x) - 1 < x <= IZR (py_int x))%R /\ py_int x <= 0.
Proof.
  intros Hx. unfold py_int. destruct (Rle_dec 0 x) as [P|N].
  - assert (x = 0%R) as -> by lra.
    rewrite (Int_part_unique 0 0) by (simpl; lra). simpl. split; [lra|lia].
  - pose proof (Int_part_bounds (- x)) as B. rewrite opp_IZR.
    split; [lra|].
    destruct (Z_lt_le_dec (Int_part (- x)) 0) as [L|L]; [|lia].
    exfalso. assert (Int_part (- x) + 1 <= 0) as L1 by lia.
    apply IZR_le in L1. rewrite plus_IZR in L1. lra.
Qed.

Lemma py_int_unique_nonneg (x : R) (z : Z) :
  (IZR z <= x < IZR z + 1)%R -> 0 <= z -> py_int x = z.
Proof.
  intros H Hz. apply IZR_le in Hz. unfold py_int.
  destruct (Rle_dec 0 x) as [_|N]; [|lra]. now apply Int_part_unique.
Qed.

Lemma py_int_unique_nonpos (x : R) (z : Z) :
  (IZR z - 1 < x <= IZR z)%R -> z <= 0 -> py_int x = z.
Proof.
  intros H Hz. pose proof (IZR_le _ _ Hz) as HzR. unfold py_int.
  destruct (Rle_dec 0 x) as [P|N].
  - assert (x = 0%R) as -> by lra.
    assert (z = 0) as ->.
    { destruct (Z.eq_dec z 0) as [E|E]; [exact E|].
      assert (z + 1 <= 0) as L by lia. apply IZR_le in L.
      rewrite plus_IZR in L. lra. }
    apply Int_part_unique. simpl. lra.
  - rewrite (Int_part_unique (- x) (- z)); [lia|]. rewrite opp_IZR. lra.
Qed.

Lemma py_int_IZR (z : Z) : py_int (IZR z) = z.
Proof.
  destruct (Z_le_gt_dec 0 z) as [H|H].
  - apply py_int_unique_nonneg; [lra|exact H].
  - apply py_int_unique_nonpos; [lra|lia].
Qed.

(** The truncation never moves a value past an integer bound. *)
Lemma py_int_between (x : R) (lo hi : Z) :
  lo <= 0 <= hi -> (IZR lo <= x <= IZR hi)%R -> lo <= py_int x <= hi.
Proof.
  intros [Hlo Hhi] [Hl Hh].
  destruct (Rle_dec 0 x) as [P|N].
  - destruct (py_int_nonneg x P) as [[B1 B2] B3]. split; [lia|].
    destruct (Z_le_gt_dec (py_int x) hi) as [L|L]; [exact L|].
    exfalso. assert (hi + 1 <= py_int x) as L1 by lia.
    apply IZR_le in L1. rewrite plus_IZR in L1. lra.
  - assert (x <= 0)%R as P by lra.
    destruct (py_int_nonpos x P) as [[B1 B2] B3]. split; [|lia].
    destruct (Z_le_gt_dec lo (py_int x)) as [L|L]; [exact L|].
    exfalso. assert (py_int x + 1 <= lo) as L1 by lia.
    apply IZR_le in L1. rewrite plus_IZR in L1. lra.
Qed.

Lemma py_int_within (x : R) (lo hi : Z) :
  lo <= 0 <= hi -> (IZR lo - 1 < x < IZR hi + 1)%R -> lo <= py_int x <= hi.
Proof.
  intros [Hlo Hhi] [Hl Hh].
  destruct (Rle_dec 0 x) as [P|N].
  - destruct (py_int_nonneg x P) as [[B1 B2] B3]. split; [lia|].
    destruct (Z_le_gt_dec (py_int x) hi) as [L|L]; [exact L|].
    exfalso. assert (hi + 1 <= py_int x) as L1 by lia.
    apply IZR_le in L1. rewrite plus_IZR in L1. lra.
  - assert (x <= 0)%R as P by lra.
    destruct (py_int_nonpos x P) as [[B1 B2] B3]. split; [|lia].
    destruct (Z_le_gt_dec lo (py_int x)) as [L|L]; [exact L|].
    exfalso. assert (py_int x + 1 <= lo) as L1 by lia.
    apply IZR_le in L1. rewrite plus_IZR in L1. lra.
Qed.

Lemma py_int_monotone (x y : R) : (x <= y)%R -> py_int x <= py_int y.
Proof.
  intros H.
  destruct (Rle_dec 0 x) as [Px|Nx].
  - assert (0 <= y)%R as Py by lra.
    destruct (py_int_nonneg x Px) as [[A1 A2] A3].
    destruct (py_int_nonneg y Py) as [[B1 B2] B3].
    destruct (Z_le_gt_dec (py_int x) (py_int y)) as [L|L]; [exact L|].
    exfalso. assert (py_int y + 1 <= py_int x) as L1 by lia.
    apply IZR_le in L1. rewrite plus_IZR in L1. lra.
  - assert (x <= 0)%R as Px by lra.
    destruct (py_int_nonpos x Px) as [[A1 A2] A3].
    destruct (Rle_dec 0 y) as [Py|Ny].
    + destruct (py_int_nonneg y Py) as [_ B3]. lia.
    + assert (y <= 0)%R as Py by lra.
      destruct (py_int_nonpos y Py) as [[B1 B2] B3].
      destruct (Z_le_gt_dec (py_int x) (py_int y)) as [L|L]; [exact L|].
      exfalso. assert (py_int y + 1 <= py_int x) as L1 by lia.
      apply IZR_le in L1. rewrite plus_IZR in L1. lra.
Qed.

Lemma nearest_int_bounds (x : R) (r : Z) :
  nearest_int x r -> (IZR r - 1 / 2 <= x <= IZR r + 1 / 2)%R.
Proof.
  unfold nearest_int, Rabs. destruct (Rcase_abs (x - IZR r)); lra.
Qed.

Lemma IZR_nonneg_of_gt_m1 (r : Z) : (-1 < IZR r)%R -> 0 <= r.
Proof.
  intros H. destruct (Z_le_gt_dec 0 r) as [L|L]; [exact L|].
  exfalso. assert (r <= -1) as L1 by lia. apply IZR_le in L1. lra.
Qed.

(** ** Loops *)

Lemma range_length (n : Z) : length (range n) = Z.to_nat n.
Proof. unfold range. now rewrite length_map, length_seq. Qed.

Lemma range_nth (n : Z) (i : nat) :
  (i < Z.to_nat n)%nat -> nth i (range n) 0 = Z.of_nat i.
Proof.
  intros H. unfold range.
  change 0 with (Z.of_nat 0). rewrite map_nth, seq_nth by exact H. reflexivity.
Qed.

Lemma range_In (n i : Z) : In i (range n) <-> 0 <= i < n.
Proof.
  unfold range. rewrite in_map_iff. split.
  - intros (k & <- & Hk). apply in_seq in Hk. lia.
  - intros H. exists (Z.to_nat i). split; [lia|]. apply in_seq. lia.
Qed.

Lemma range_pos (n : Z) : 0 < n -> range n = 0 :: map Z.of_nat (seq 1 (Z.to_nat n - 1)).
Proof.
  intros H. unfold range.
  replace (Z.to_nat n) with (S (Z.to_nat n - 1)) at 1 by lia. reflexivity.
Qed.

Lemma seq_firstn (k n s : nat) : (k <= n)%nat -> firstn k (seq s n) = seq s k.
Proof.
  revert n s; induction k as [|k IH]; intros n s H; [reflexivity|].
  destruct n as [|n]; [lia|]. cbn [seq firstn]. f_equal. apply IH. lia.
Qed.

Lemma range_firstn (m n : Z) : m <= n -> range m = firstn (Z.to_nat m) (range n).
Proof.
  intros H. unfold range. rewrite firstn_map, seq_firstn by lia. reflexivity.
Qed.

Lemma mapM_Ok_map {A B : Type} (f : A -> result B) (g : A -> B) (l : list A) :
  (forall a, In a l -> f a = Ok (g a)) -> mapM f l = Ok (map g l).
Proof.
  induction l as [|a t IH]; intros H; simpl; [reflexivity|].
  rewrite (H a) by (now left). simpl.
  rewrite IH by (intros b Hb; apply H; now right). reflexivity.
Qed.

Lemma mapM_Ok_inv {A B : Type} (f : A -> result B) (l : list A) (r : list B) :
  mapM f l = Ok r ->
  length r = length l /\
  forall (i : nat) (da : A) (db : B), (i < length l)%nat ->
    f (nth i l da) = Ok (nth i r db).
Proof.
  revert r; induction l as [|a t IH]; intros r H; simpl in H.
  - inversion H; subst. split; [reflexivity|]. intros i da db Hi. simpl in Hi. lia.
  - destruct (f a) as [b|e] eqn:Ea; simpl in H; [|discriminate].
    destruct (mapM f t) as [bs|e] eqn:Et; simpl in H; [|discriminate].
    inversion H; subst. destruct (IH bs eq_refl) as [Hl Hn].
    split; [simpl; now rewrite Hl|].
    intros [|i] da db Hi; simpl; [exact Ea|]. apply Hn. simpl in Hi. lia.
Qed.

(** ** The encoder *)

Lemma pack_I_Ok (v : Z) : fits_u32 v -> pack_I v = Ok (le_bytes 4 v).
Proof.
  intros [H1 H2]. unfold pack_I.
  destruct (Z.leb_spec 0 v); [|lia]. destruct (Z.leb_spec v 4294967295); [|lia].
  reflexivity.
Qed.

Lemma pack_I_inv (v : Z) (b : list byte) :
  pack_I v = Ok b -> fits_u32 v /\ b = le_bytes 4 v.
Proof.
  unfold pack_I, fits_u32.
  destruct ((0 <=? v) && (v <=? 4294967295)) eqn:C; intros E; [|discriminate E].
  apply Ok_inj in E. apply andb_prop in C. destruct C as [C1 C2].
  apply Z.leb_le in C1, C2. split; [split; assumption|now symmetry].
Qed.

Lemma pack_h_Ok (v : Z) : in_i16 v -> pack_h v = Ok (le_bytes 2 v).
Proof.
  intros [H1 H2]. unfold pack_h.
  destruct (Z.leb_spec (-32768) v); [|lia]. destruct (Z.leb_spec v 32767); [|lia].
  reflexivity.
Qed.

Lemma pack_h_inv (v : Z) (b : list byte) :
  pack_h v = Ok b -> in_i16 v /\ b = le_bytes 2 v.
Proof.
  unfold pack_h, in_i16.
  destruct ((-32768 <=? v) && (v <=? 32767)) eqn:C; intros E; [|discriminate E].
  apply Ok_inj in E. apply andb_prop in C. destruct C as [C1 C2].
  apply Z.leb_le in C1, C2. split; [split; assumption|now symmetry].
Qed.

Lemma extend_samples_Ok (samples : list Z) (wav : list byte) :
  Forall in_i16 samples ->
  extend_samples wav samples = Ok (wav ++ flat_map (le_bytes 2) samples).
Proof.
  revert wav; induction samples as [|s t IH]; intros wav H; simpl.
  - now rewrite app_nil_r.
  - inversion H; subst. rewrite pack_h_Ok by assumption. simpl.
    rewrite IH by assumption. now rewrite <- app_assoc.
Qed.

Lemma extend_samples_inv (samples : list Z) (wav out : list byte) :
  extend_samples wav samples = Ok out ->
  Forall in_i16 samples /\ out = wav ++ flat_map (le_bytes 2) samples.
Proof.
  revert wav; induction samples as [|s t IH]; intros wav H; simpl in H.
  - inversion H; subst. split; [constructor|]. simpl. now rewrite app_nil_r.
  - destruct (pack_h s) as [b|e] eqn:E; simpl in H; [|discriminate].
    apply pack_h_inv in E. destruct E as [Hs ->].
    apply IH in H. destruct H as [Ht ->].
    split; [now constructor|]. simpl. now rewrite <- app_assoc.
Qed.

Lemma encode_wav_Ok (sr n : Z) (samples : list Z) :
  fits_u32 (36 + n * 2) -> fits_u32 sr -> fits_u32 (sr * 2) -> fits_u32 (n * 2) ->
  Forall in_i16 samples ->
  encode_wav sr n samples = Ok (header_bytes sr n ++ flat_map (le_bytes 2) samples).
Proof.
  intros H1 H2 H3 H4 H5. unfold encode_wav.
  rewrite (pack_I_Ok _ H1), (pack_I_Ok _ H2), (pack_I_Ok _ H3), (pack_I_Ok _ H4).
  cbn [bind]. rewrite (pack_I_Ok 16) by (unfold fits_u32; lia).
  change (pack_H 1) with (Ok (le_bytes 2 1)).
  change (pack_H 2) with (Ok (le_bytes 2 2)).
  change (pack_H 16) with (Ok (le_bytes 2 16)).
  cbn [bind]. rewrite extend_samples_Ok by assumption.
  unfold header_bytes. rewrite app_nil_l, <- !app_assoc. reflexivity.
Qed.

Lemma encode_wav_inv (sr n : Z) (samples : list Z) (out : list byte) :
  encode_wav sr n samples = Ok out ->
  fits_u32 (36 + n * 2) /\ fits_u32 sr /\ fits_u32 (sr * 2) /\ fits_u32 (n * 2) /\
  Forall in_i16 samples /\
  out = header_bytes sr n ++ flat_map (le_bytes 2) samples.
Proof.
  unfold encode_wav. intros H.
  destruct (pack_I (36 + n * 2)) as [b1|e] eqn:E1; cbn [bind] in H; [|discriminate].
  rewrite (pack_I_Ok 16) in H by (unfold fits_u32; lia).
  change (pack_H 1) with (Ok (le_bytes 2 1)) in H.
  change (pack_H 2) with (Ok (le_bytes 2 2)) in H.
  change (pack_H 16) with (Ok (le_bytes 2 16)) in H.
  cbn [bind] in H.
  destruct (pack_I sr) as [b2|e] eqn:E2; cbn [bind] in H; [|discriminate].
  destruct (pack_I (sr * 2)) as [b3|e] eqn:E3; cbn [bind] in H; [|discriminate].
  destruct (pack_I (n * 2)) as [b4|e] eqn:E4; cbn [bind] in H; [|discriminate].
  apply pack_I_inv in E1, E2, E3, E4.
  destruct E1 as [F1 ->], E2 as [F2 ->], E3 as [F3 ->], E4 as [F4 ->].
  apply extend_samples_inv in H. destruct H as [Hs ->].
  repeat (split; [assumption|]).
  unfold header_bytes. rewrite app_nil_l, <- !app_assoc. reflexivity.
Qed.

(** A packed sample reads back as itself: two's complement, low byte
    first. *)
Lemma i16_roundtrip (s : Z) : in_i16 s -> i16_at 0 (le_bytes 2 s) = s.
Proof.
  intros [H1 H2]. unfold i16_at, u16_at, slice. cbn [skipn].
  assert (firstn 2 (le_bytes 2 s) = le_bytes 2 s) as ->
    by (apply firstn_all2; rewrite le_bytes_length; lia).
  rewrite le_value_le_bytes. change (2 ^ (8 * Z.of_nat 2)) with 65536.
  cbv zeta. destruct (Z_lt_le_dec s 0) as [N|P].
  - assert (s mod 65536 = s + 65536) as ->.
    { symmetry. apply (Z.mod_unique s 65536 (-1)); lia. }
    destruct (Z.ltb_spec (s + 65536) 32768); lia.
  - rewrite Z.mod_small by lia. destruct (Z.ltb_spec s 32768); lia.
Qed.

Example riff_ascii : map Z_of_byte (bytes_lit "RIFF") = [82; 73; 70; 70].
Proof. reflexivity. Qed.

Example pack_I_48000 : option_map (map Z_of_byte)
    (match pack_I 48000 with Ok b => Some b | Raise _ => None end)
  = Some [128; 187; 0; 0].
Proof. reflexivity. Qed.

Example pack_h_minus_2 : option_map (map Z_of_byte)
    (match pack_h (-2) with Ok b => Some b | Raise _ => None end)
  = Some [254; 255].
Proof. reflexivity. Qed.

Example pack_I_too_large : pack_I 4294967296 = Raise StructError.
Proof. reflexivity. Qed.

Example output_directory : dirname output_path = "debug-audio"%string.
Proof. reflexivity. Qed.

Lemma le_value_u32 (v : Z) : fits_u32 v -> le_value (le_bytes 4 v) = v.
Proof.
  intros [H1 H2]. rewrite le_value_le_bytes. apply Z.mod_small.
  change (2 ^ (8 * Z.of_nat 4)) with 4294967296. lia.
Qed.

Lemma header_bytes_length (sr n : Z) : length (header_bytes sr n) = 44%nat.
Proof.
  unfold header_bytes. rewrite !length_app, !le_bytes_length. reflexivity.
Qed.

Lemma flat_map_le_bytes_length (k : nat) (l : list Z) :
  length (flat_map (le_bytes k) l) = (k * length l)%nat.
Proof.
  induction l as [|a t IH]; simpl; [lia|].
  rewrite length_app, le_bytes_length, IH. lia.
Qed.

Ltac eval_lit s :=
  let v := eval cbv in (bytes_lit s) in change (bytes_lit s) with v.

Lemma header_bytes_layout (sr n : Z) (body : list byte) :
  fits_u32 (36 + n * 2) -> fits_u32 sr -> fits_u32 (sr * 2) -> fits_u32 (n * 2) ->
  header_layout (header_bytes sr n ++ body) sr n.
Proof.
  intros F1 F2 F3 F4.
  pose proof (le_value_u32 _ F1) as E1. pose proof (le_value_u32 _ F2) as E2.
  pose proof (le_value_u32 _ F3) as E3. pose proof (le_value_u32 _ F4) as E4.
  unfold header_layout, header_bytes, u32_at, u16_at, slice.
  cbn [le_bytes] in *.
  eval_lit ("RIFF"%string).
  eval_lit ("WAVE"%string).
  eval_lit ("fmt "%string).
  eval_lit ("data"%string).
  cbn [app skipn firstn].
  replace (2 * n) with (n * 2) by lia.
  repeat split; try assumption; reflexivity.
Qed.

Lemma pack_I_Raise (v : Z) (e : PyError) : pack_I v = Raise e -> e = StructError.
Proof.
  unfold pack_I. destruct ((0 <=? v) && (v <=? 4294967295)); intros H;
    [discriminate H|]. congruence.
Qed.

Lemma pack_h_Raise (v : Z) (e : PyError) : pack_h v = Raise e -> e = StructError.
Proof.
  unfold pack_h. destruct ((-32768 <=? v) && (v <=? 32767)); intros H;
    [discriminate H|]. congruence.
Qed.

Lemma extend_samples_Raise (samples : list Z) (wav : list byte) (e : PyError) :
  extend_samples wav samples = Raise e -> e = StructError.
Proof.
  revert wav; induction samples as [|s t IH]; intros wav H; simpl in H.
  - discriminate H.
  - destruct (pack_h s) as [b|e'] eqn:E; cbn [bind] in H.
    + now apply IH in H.
    + apply pack_h_Raise in E. congruence.
Qed.

Lemma encode_wav_Raise (sr n : Z) (samples : list Z) (e : PyError) :
  encode_wav sr n samples = Raise e -> e = StructError.
Proof.
  unfold encode_wav. intros H.
  rewrite (pack_I_Ok 16) in H by (unfold fits_u32; lia).
  change (pack_H 1) with (Ok (le_bytes 2 1)) in H.
  change (pack_H 2) with (Ok (le_bytes 2 2)) in H.
  change (pack_H 16) with (Ok (le_bytes 2 16)) in H.
  destruct (pack_I (36 + n * 2)) as [b1|e1] eqn:E1; cbn [bind] in H;
    [|apply pack_I_Raise in E1; congruence].
  destruct (pack_I sr) as [b2|e2] eqn:E2; cbn [bind] in H;
    [|apply pack_I_Raise in E2; congruence].
  destruct (pack_I (sr * 2)) as [b3|e3] eqn:E3; cbn [bind] in H;
    [|apply pack_I_Raise in E3; congruence].
  destruct (pack_I (n * 2)) as [b4|e4] eqn:E4; cbn [bind] in H;
    [|apply pack_I_Raise in E4; congruence].
  now apply extend_samples_Raise in H.
Qed.

Lemma slice_flat_map_le_bytes (l : list Z) (i : nat) :
  (i < length l)%nat ->
  slice (2 * i) 2 (flat_map (le_bytes 2) l) = le_bytes 2 (nth i l 0).
Proof.
  revert i; induction l as [|a t IH]; intros i Hi; [simpl in Hi; lia|].
  unfold slice in *. cbn [flat_map]. destruct i as [|j].
  - change (2 * 0)%nat with 0%nat. cbn [skipn nth].
    rewrite firstn_app, le_bytes_length, firstn_all2
      by (rewrite le_bytes_length; lia).
    cbn [Nat.sub firstn]. apply app_nil_r.
  - replace (2 * S j)%nat with (2 + 2 * j)%nat by lia.
    rewrite skipn_app, le_bytes_length, skipn_all2
      by (rewrite le_bytes_length; lia).
    replace (2 + 2 * j - 2)%nat with (2 * j)%nat by lia.
    cbn [app nth]. apply IH. simpl in Hi. lia.
Qed.

Lemma i16_at_of_slice (off : nat) (l : list byte) (s : Z) :
  in_i16 s -> slice off 2 l = le_bytes 2 s -> i16_at off l = s.
Proof.
  intros Hs E.
  transitivity (i16_at 0 (le_bytes 2 s)); [|now apply i16_roundtrip].
  unfold i16_at, u16_at. rewrite E.
  replace (slice 0 2 (le_bytes 2 s)) with (le_bytes 2 s); [reflexivity|].
  unfold slice. cbn [skipn]. symmetry. apply firstn_all2.
  rewrite le_bytes_length. lia.
Qed.

Lemma slice_past_header (sr n : Z) (body : list byte) (k len : nat) :
  slice (44 + k) len (header_bytes sr n ++ body) = slice k len body.
Proof.
  unfold slice. rewrite skipn_app, header_bytes_length, skipn_all2
    by (rewrite header_bytes_length; lia).
  replace (44 + k - 44)%nat with k by lia. reflexivity.
Qed.

(** ** Rounding to binary64 *)

Lemma IZR_lt_succ (a b : Z) : (IZR a < IZR b + 1)%R -> a <= b.
Proof.
  intros H. destruct (Z_le_gt_dec a b) as [L|L]; [exact L|].
  exfalso. assert (b + 1 <= a) as L1 by lia. apply IZR_le in L1.
  rewrite plus_IZR in L1. lra.
Qed.

Lemma ln2_pos : (0 < ln 2)%R.
Proof. pose proof ln_lt_2. lra. Qed.

Lemma bpow_exp (e : Z) : bpow e = exp (IZR e * ln 2).
Proof. unfold bpow. rewrite powerRZ_Rpower by lra. reflexivity. Qed.

Lemma bpow_pos (e : Z) : (0 < bpow e)%R.
Proof. rewrite bpow_exp. apply exp_pos. Qed.

Lemma bpow_add (a b : Z) : bpow (a + b) = (bpow a * bpow b)%R.
Proof. unfold bpow. apply powerRZ_add. lra. Qed.

Lemma bpow_lt (a b : Z) : a < b -> (bpow a < bpow b)%R.
Proof.
  intros H. rewrite !bpow_exp. apply exp_increasing.
  apply IZR_lt in H. pose proof ln2_pos. nra.
Qed.

Lemma bpow_le (a b : Z) : a <= b -> (bpow a <= bpow b)%R.
Proof.
  intros H. destruct (Z.eq_dec a b) as [->|N]; [lra|].
  apply Rlt_le, bpow_lt. lia.
Qed.

Lemma bpow_lt_inv (a b : Z) : (bpow a < bpow b)%R -> a < b.
Proof.
  intros H. destruct (Z_lt_le_dec a b) as [L|L]; [exact L|].
  apply bpow_le in L. lra.
Qed.

Lemma bpow_0 : bpow 0 = 1%R.
Proof. reflexivity. Qed.

Lemma bpow_1 : bpow 1 = 2%R.
Proof. unfold bpow. simpl. lra. Qed.

Lemma bpow_IZR (k : Z) : 0 <= k -> bpow k = IZR (2 ^ k).
Proof.
  intros H. unfold bpow. rewrite <- (Z2Nat.id k H) at 1.
  rewrite <- pow_powerRZ. rewrite <- (Z2Nat.id k H) at 2.
  now rewrite <- pow_IZR.
Qed.

Lemma bpow_opp (k : Z) : bpow (- k) = (/ bpow k)%R.
Proof. unfold bpow. apply powerRZ_neg'. Qed.

Lemma mag_spec (x : R) :
  x <> 0%R -> (bpow (mag x) <= Rabs x < bpow (mag x + 1))%R.
Proof.
  intros Hx. assert (0 < Rabs x)%R as Ha by now apply Rabs_pos_lt.
  unfold mag. set (l := (ln (Rabs x) / ln 2)%R).
  pose proof (Int_part_bounds l) as [B1 B2]. pose proof ln2_pos as H2.
  assert (l * ln 2 = ln (Rabs x))%R as El by (unfold l; field; lra).
  assert (Rabs x = exp (l * ln 2)) as Ea by (rewrite El; symmetry; now apply exp_ln).
  rewrite !bpow_exp, plus_IZR, Ea. split.
  - destruct (Req_dec (IZR (Int_part l)) l) as [E|N].
    + rewrite E. lra.
    + apply Rlt_le, exp_increasing. nra.
  - apply exp_increasing. nra.
Qed.

Lemma mag_unique (x : R) (e : Z) :
  (bpow e <= Rabs x < bpow (e + 1))%R -> mag x = e.
Proof.
  intros [H1 H2]. assert (x <> 0%R) as Hx.
  { intros ->. rewrite Rabs_R0 in H1. pose proof (bpow_pos e). lra. }
  destruct (mag_spec x Hx) as [M1 M2].
  assert (mag x < e + 1) by (apply bpow_lt_inv; lra).
  assert (e < mag x + 1) by (apply bpow_lt_inv; lra). lia.
Qed.

Lemma mag_le (x y : R) : x <> 0%R -> (Rabs x <= Rabs y)%R -> mag x <= mag y.
Proof.
  intros Hx H. assert (y <> 0%R) as Hy.
  { intros ->. rewrite Rabs_R0 in H. pose proof (Rabs_pos_lt x Hx). lra. }
  destruct (mag_spec x Hx) as [M1 _]. destruct (mag_spec y Hy) as [_ N2].
  assert (mag x < mag y + 1) by (apply bpow_lt_inv; lra). lia.
Qed.

Lemma rne_cases (y : R) : rne y = Int_part y \/ rne y = Int_part y + 1.
Proof.
  unfold rne. cbv zeta.
  destruct (Rlt_dec _ _); [now left|].
  destruct (Rlt_dec _ _); [now right|].
  destruct (Z.even _); [now left|now right].
Qed.

Lemma rne_IZR (k : Z) : rne (IZR k) = k.
Proof.
  unfold rne. rewrite (Int_part_unique (IZR k) k) by lra. cbv zeta.
  destruct (Rlt_dec _ _) as [_|N]; [reflexivity|]. exfalso. apply N. lra.
Qed.

Lemma rne_error (y : R) : (Rabs (IZR (rne y) - y) <= 1 / 2)%R.
Proof.
  pose proof (Int_part_bounds y) as [B1 B2].
  unfold rne. cbv zeta.
  destruct (Rlt_dec _ _) as [L|L].
  - rewrite Rabs_left1 by lra. lra.
  - destruct (Rlt_dec _ _) as [G|G].
    + rewrite plus_IZR. rewrite Rabs_pos_eq by lra. lra.
    + destruct (Z.even _).
      * rewrite Rabs_left1 by lra. lra.
      * rewrite plus_IZR. rewrite Rabs_pos_eq by lra. lra.
Qed.

Lemma rne_le_IZR (y : R) (k : Z) : (y <= IZR k)%R -> rne y <= k.
Proof.
  intros H. destruct (Req_dec y (IZR k)) as [->|N]; [rewrite rne_IZR; lia|].
  pose proof (Int_part_bounds y) as [B1 B2].
  assert (Int_part y + 1 <= k).
  { assert (Int_part y < k) by (apply lt_IZR; lra). lia. }
  destruct (rne_cases y); lia.
Qed.

Lemma rne_ge_IZR (y : R) (k : Z) : (IZR k <= y)%R -> k <= rne y.
Proof.
  intros H. pose proof (Int_part_bounds y) as [B1 B2].
  assert (k <= Int_part y) by (apply IZR_lt_succ; lra).
  destruct (rne_cases y); lia.
Qed.

Lemma rne_monotone (y1 y2 : R) : (y1 <= y2)%R -> rne y1 <= rne y2.
Proof.
  intros H.
  pose proof (Int_part_bounds y1) as [A1 A2].
  pose proof (Int_part_bounds y2) as [B1 B2].
  destruct (Z.eq_dec (Int_part y1) (Int_part y2)) as [E|N].
  - unfold rne. cbv zeta. rewrite <- E.
    destruct (Rlt_dec (y1 - _) _) as [L1|L1].
    + destruct (Rlt_dec (y2 - _) _); [lia|].
      destruct (Rlt_dec _ (y2 - _)); [lia|]. destruct (Z.even _); lia.
    + destruct (Rlt_dec _ (y1 - _)) as [G1|G1].
      * destruct (Rlt_dec (y2 - _) _) as [L2|L2]; [lra|].
        destruct (Rlt_dec _ (y2 - _)) as [G2|G2]; [lia|lra].
      * destruct (Rlt_dec (y2 - _) _) as [L2|L2]; [lra|].
        destruct (Rlt_dec _ (y2 - _)) as [G2|G2]; [destruct (Z.even _); lia|].
        lia.
  - assert (Int_part y1 <= Int_part y2) by (apply IZR_lt_succ; lra).
    assert (Int_part y1 + 1 <= Int_part y2) by lia.
    destruct (rne_cases y1), (rne_cases y2); lia.
Qed.

Lemma RN_0 : RN 0 = 0%R.
Proof.
  unfold RN. replace (0 / bpow (cexp 0))%R with (IZR 0).
  - rewrite rne_IZR. simpl. ring.
  - simpl. unfold Rdiv. ring.
Qed.

Lemma RN_le_grid (x : R) (k : Z) :
  (x <= IZR k * bpow (cexp x))%R -> (RN x <= IZR k * bpow (cexp x))%R.
Proof.
  intros H. pose proof (bpow_pos (cexp x)) as P. unfold RN.
  apply Rmult_le_compat_r; [lra|]. apply IZR_le, rne_le_IZR.
  apply (Rmult_le_reg_r (bpow (cexp x))); [exact P|].
  unfold Rdiv. rewrite Rmult_assoc, Rinv_l by lra. lra.
Qed.

Lemma RN_ge_grid (x : R) (k : Z) :
  (IZR k * bpow (cexp x) <= x)%R -> (IZR k * bpow (cexp x) <= RN x)%R.
Proof.
  intros H. pose proof (bpow_pos (cexp x)) as P. unfold RN.
  apply Rmult_le_compat_r; [lra|]. apply IZR_le, rne_ge_IZR.
  apply (Rmult_le_reg_r (bpow (cexp x))); [exact P|].
  unfold Rdiv. rewrite Rmult_assoc, Rinv_l by lra. lra.
Qed.

(** A representable number whose exponent is at least [c] lies on the grid
    of step [bpow c]. *)
Lemma on_grid (m e c : Z) :
  c <= e -> (IZR m * bpow e = IZR (m * 2 ^ (e - c)) * bpow c)%R.
Proof.
  intros H. rewrite mult_IZR, <- bpow_IZR by lia.
  rewrite Rmult_assoc, <- bpow_add. f_equal. f_equal. lia.
Qed.

Lemma bpow_mag_grid (x : R) :
  -1074 < cexp x -> bpow (mag x) = (IZR (2 ^ 52) * bpow (cexp x))%R.
Proof.
  intros H. assert (cexp x = mag x - 52) as E by (unfold cexp in *; lia).
  rewrite <- bpow_IZR by lia. rewrite <- bpow_add. f_equal. lia.
Qed.

Lemma representable_small (m e : Z) (x : R) :
  Z.abs m <= 2 ^ 53 -> e < cexp x -> -1074 <= e ->
  (Rabs (IZR m * bpow e) <= bpow (mag x))%R.
Proof.
  intros Hm He He'.
  assert (cexp x = mag x - 52) as E by (unfold cexp in *; lia).
  rewrite Rabs_mult, (Rabs_pos_eq (bpow e)) by (apply Rlt_le, bpow_pos).
  rewrite <- abs_IZR. apply IZR_le in Hm.
  apply Rle_trans with (IZR (2 ^ 53) * bpow e)%R.
  - apply Rmult_le_compat_r; [apply Rlt_le, bpow_pos|exact Hm].
  - rewrite <- bpow_IZR by lia. rewrite <- bpow_add. apply bpow_le. lia.
Qed.

Theorem RN_le_representable (x r : R) :
  representable r -> (x <= r)%R -> (RN x <= r)%R.
Proof.
  intros (m & e & -> & Hm & He) H.
  destruct (Req_dec x 0) as [->|Hx].
  { rewrite RN_0. exact H. }
  destruct (Z_le_gt_dec (cexp x) e) as [L|L].
  - rewrite (on_grid m e (cexp x) L) in *. now apply RN_le_grid.
  - assert (Rabs (IZR m * bpow e) <= bpow (mag x))%R as Hr
      by (apply representable_small; lia).
    destruct (mag_spec x Hx) as [M1 _].
    rewrite (bpow_mag_grid x) in * by lia.
    destruct (Rle_dec 0 x) as [P|N].
    + rewrite (Rabs_pos_eq x P) in M1.
      assert (0 <= IZR m * bpow e)%R as Pr by lra.
      rewrite (Rabs_pos_eq _ Pr) in Hr.
      assert (IZR m * bpow e = IZR (2 ^ 52) * bpow (cexp x))%R as -> by lra.
      apply RN_le_grid. lra.
    + rewrite (Rabs_left1 x) in M1 by lra.
      assert (RN x <= IZR (- 2 ^ 52) * bpow (cexp x))%R as G.
      { apply RN_le_grid. rewrite opp_IZR. lra. }
      rewrite opp_IZR in G.
      pose proof (Rle_abs (- (IZR m * bpow e))) as A. rewrite Rabs_Ropp in A.
      lra.
Qed.

Theorem RN_ge_representable (x r : R) :
  representable r -> (r <= x)%R -> (r <= RN x)%R.
Proof.
  intros (m & e & -> & Hm & He) H.
  destruct (Req_dec x 0) as [->|Hx].
  { rewrite RN_0. exact H. }
  destruct (Z_le_gt_dec (cexp x) e) as [L|L].
  - rewrite (on_grid m e (cexp x) L) in *. now apply RN_ge_grid.
  - assert (Rabs (IZR m * bpow e) <= bpow (mag x))%R as Hr
      by (apply representable_small; lia).
    destruct (mag_spec x Hx) as [M1 _].
    rewrite (bpow_mag_grid x) in * by lia.
    destruct (Rle_dec 0 x) as [P|N].
    + rewrite (Rabs_pos_eq x P) in M1.
      assert (IZR (2 ^ 52) * bpow (cexp x) <= RN x)%R as G
        by (apply RN_ge_grid; lra).
      pose proof (Rle_abs (IZR m * bpow e)) as A. lra.
    + rewrite (Rabs_left1 x) in M1 by lra.
      assert (IZR m * bpow e <= 0)%R as Pr by lra.
      rewrite (Rabs_left1 _ Pr) in Hr.
      assert (IZR m * bpow e = IZR (- 2 ^ 52) * bpow (cexp x))%R as ->
        by (rewrite opp_IZR; lra).
      apply RN_ge_grid. rewrite opp_IZR. lra.
Qed.

Theorem RN_exact (x : R) : representable x -> RN x = x.
Proof.
  intros H. apply Rle_antisym.
  - apply RN_le_representable; [exact H|lra].
  - apply RN_ge_representable; [exact H|lra].
Qed.

Lemma representable_opp (x : R) : representable x -> representable (- x).
Proof.
  intros (m & e & -> & Hm & He). exists (- m), e.
  split; [rewrite opp_IZR; ring|]. split; [lia|exact He].
Qed.

Lemma RN_abs_le (x r : R) :
  representable r -> (Rabs x <= r)%R -> (Rabs (RN x) <= r)%R.
Proof.
  intros Hr H. apply Rabs_le.
  pose proof (Rle_abs x). pose proof (Rle_abs (- x)) as A. rewrite Rabs_Ropp in A.
  split.
  - apply RN_ge_representable; [now apply representable_opp|lra].
  - apply RN_le_representable; [exact Hr|lra].
Qed.

Lemma representable_IZR (z : Z) : Z.abs z <= 2 ^ 53 -> representable (IZR z).
Proof.
  intros H. exists z, 0. split; [rewrite bpow_0; ring|]. split; [exact H|lia].
Qed.

Lemma representable_bpow (e : Z) : -1074 <= e -> representable (bpow e).
Proof.
  intros H. exists 1, e. split; [ring|]. split; [simpl; lia|exact H].
Qed.

Lemma representable_0 : representable 0.
Proof. apply (representable_IZR 0). simpl. lia. Qed.

Lemma RN_nonneg (x : R) : (0 <= x)%R -> (0 <= RN x)%R.
Proof. intros H. apply RN_ge_representable; [apply representable_0|exact H]. Qed.

Lemma RN_nonpos (x : R) : (x <= 0)%R -> (RN x <= 0)%R.
Proof. intros H. apply RN_le_representable; [apply representable_0|exact H]. Qed.

Lemma cexp_le (x y : R) : x <> 0%R -> (Rabs x <= Rabs y)%R -> cexp x <= cexp y.
Proof. intros Hx H. pose proof (mag_le x y Hx H). unfold cexp. lia. Qed.

Theorem RN_monotone (x y : R) : (x <= y)%R -> (RN x <= RN y)%R.
Proof.
  intros H.
  destruct (Rle_dec x 0) as [Nx|Px]; [destruct (Rle_dec 0 y) as [Py|Ny]|].
  - apply Rle_trans with 0%R; [now apply RN_nonpos|now apply RN_nonneg].
  - (* x <= y < 0 *)
    assert (y <> 0%R) as Hy by lra. assert (x <> 0%R) as Hx by lra.
    assert (Rabs y <= Rabs x)%R as Habs by (rewrite !Rabs_left1 by lra; lra).
    pose proof (cexp_le y x Hy Habs) as C.
    destruct (Z.eq_dec (cexp y) (cexp x)) as [E|NE].
    + unfold RN. rewrite E. pose proof (bpow_pos (cexp x)) as P.
      apply Rmult_le_compat_r; [lra|]. apply IZR_le, rne_monotone.
      unfold Rdiv. apply Rmult_le_compat_r; [|exact H].
      apply Rlt_le, Rinv_0_lt_compat, P.
    + assert (mag y < mag x) as M.
      { pose proof (mag_le y x Hy Habs). unfold cexp in *. lia. }
      destruct (mag_spec x Hx) as [X1 _]. destruct (mag_spec y Hy) as [_ Y2].
      rewrite Rabs_left1 in X1, Y2 by lra.
      assert (bpow (mag y + 1) <= bpow (mag x))%R by (apply bpow_le; lia).
      assert (representable (- bpow (mag x))) as Rr.
      { apply representable_opp, representable_bpow. unfold cexp in *. lia. }
      apply Rle_trans with (- bpow (mag x))%R.
      * apply RN_le_representable; [exact Rr|lra].
      * apply RN_ge_representable; [exact Rr|lra].
  - (* 0 < x <= y *)
    assert (0 < x)%R as Hx0 by lra.
    assert (y <> 0%R) as Hy by lra. assert (x <> 0%R) as Hx by lra.
    assert (Rabs x <= Rabs y)%R as Habs by (rewrite !Rabs_pos_eq by lra; lra).
    pose proof (cexp_le x y Hx Habs) as C.
    destruct (Z.eq_dec (cexp x) (cexp y)) as [E|NE].
    + unfold RN. rewrite E. pose proof (bpow_pos (cexp y)) as P.
      apply Rmult_le_compat_r; [lra|]. apply IZR_le, rne_monotone.
      unfold Rdiv. apply Rmult_le_compat_r; [|exact H].
      apply Rlt_le, Rinv_0_lt_compat, P.
    + assert (mag x < mag y) as M.
      { pose proof (mag_le x y Hx Habs). unfold cexp in *. lia. }
      destruct (mag_spec x Hx) as [_ X2]. destruct (mag_spec y Hy) as [Y1 _].
      rewrite Rabs_pos_eq in X2, Y1 by lra.
      assert (bpow (mag x + 1) <= bpow (mag y))%R by (apply bpow_le; lia).
      assert (representable (bpow (mag y))) as Rr.
      { apply representable_bpow. unfold cexp in *. lia. }
      apply Rle_trans with (bpow (mag y))%R.
      * apply RN_le_representable; [exact Rr|lra].
      * apply RN_ge_representable; [exact Rr|lra].
Qed.

(** The rounding error: half a unit in the last place. *)
Lemma bpow_cexp_bound (x : R) :
  x <> 0%R -> (bpow (cexp x) <= Rabs x * bpow (-52) + bpow (-1074))%R.
Proof.
  intros Hx.
  pose proof (bpow_pos (-52)) as P52. pose proof (bpow_pos (-1074)) as P1074.
  pose proof (Rabs_pos x) as Px.
  unfold cexp. destruct (Z.max_spec (mag x - 52) (-1074)) as [[_ ->]|[L ->]].
  - nra.
  - destruct (mag_spec x Hx) as [M1 _].
    replace (mag x - 52) with (mag x + -52) by lia. rewrite bpow_add. nra.
Qed.

Theorem RN_error (x : R) :
  (Rabs (RN x - x) <= (Rabs x * bpow (-52) + bpow (-1074)) / 2)%R.
Proof.
  destruct (Req_dec x 0) as [->|Hx].
  { rewrite RN_0, Rminus_0_r, Rabs_R0. pose proof (bpow_pos (-1074)). lra. }
  pose proof (bpow_cexp_bound x Hx) as B. pose proof (bpow_pos (cexp x)) as P.
  unfold RN. set (c := bpow (cexp x)) in *.
  pose proof (rne_error (x / c)) as E.
  replace (IZR (rne (x / c)) * c - x)%R with ((IZR (rne (x / c)) - x / c) * c)%R
    by (field; lra).
  rewrite Rabs_mult, (Rabs_pos_eq c) by lra.
  pose proof (Rabs_pos (IZR (rne (x / c)) - x / c)). nra.
Qed.

Lemma representable_RN (x : R) : representable (RN x).
Proof.
  destruct (Req_dec x 0) as [->|Hx]; [rewrite RN_0; apply representable_0|].
  exists (rne (x / bpow (cexp x))), (cexp x).
  split; [reflexivity|]. split; [|unfold cexp; lia].
  pose proof (bpow_pos (cexp x)) as P.
  destruct (mag_spec x Hx) as [_ M2].
  assert (bpow (mag x + 1) <= IZR (2 ^ 53) * bpow (cexp x))%R as B.
  { rewrite <- bpow_IZR by lia. rewrite <- bpow_add. apply bpow_le.
    unfold cexp. lia. }
  assert (Rabs x / bpow (cexp x) <= IZR (2 ^ 53))%R as Q.
  { apply (Rmult_le_reg_r (bpow (cexp x))); [exact P|].
    unfold Rdiv. rewrite Rmult_assoc, Rinv_l by lra. lra. }
  pose proof (Rle_abs x) as A1. pose proof (Rle_abs (- x)) as A2.
  rewrite Rabs_Ropp in A2.
  assert (/ bpow (cexp x) > 0)%R as Pi by (apply Rinv_0_lt_compat; exact P).
  apply Z.abs_le. split.
  - apply rne_ge_IZR. rewrite opp_IZR. unfold Rdiv in *. nra.
  - apply rne_le_IZR. unfold Rdiv in *. nra.
Qed.

(** ** Float operations *)

Lemma Rabs_mult_le (x y a b : R) :
  (Rabs x <= a)%R -> (Rabs y <= b)%R -> (Rabs (x * y) <= a * b)%R.
Proof.
  intros Hx Hy. rewrite Rabs_mult.
  apply Rmult_le_compat; [apply Rabs_pos|apply Rabs_pos|exact Hx|exact Hy].
Qed.

Lemma Rabs_bounds (x b : R) : (Rabs x <= b)%R -> (- b <= x <= b)%R.
Proof.
  intros H. pose proof (Rle_abs x). pose proof (Rle_abs (- x)) as A.
  rewrite Rabs_Ropp in A. lra.
Qed.

Lemma bpow_finite (r : R) (k : Z) : (r <= bpow k)%R -> k < 1024 -> (r < bpow 1024)%R.
Proof. intros H Hk. pose proof (bpow_lt k 1024 Hk). lra. Qed.

Lemma IZR_le_bpow (z k : Z) : 0 <= k -> z <= 2 ^ k -> (IZR z <= bpow k)%R.
Proof. intros Hk H. rewrite bpow_IZR by exact Hk. now apply IZR_le. Qed.

Lemma bpow_neg (k : positive) : bpow (Zneg k) = (/ IZR (2 ^ Zpos k))%R.
Proof.
  change (Zneg k) with (- Zpos k). rewrite bpow_opp, bpow_IZR by lia.
  reflexivity.
Qed.

Lemma round_to_float_Fin (x r : R) :
  representable r -> (Rabs x <= r)%R -> (r < bpow 1024)%R ->
  round_to_float x = Fin (RN x) /\ (Rabs (RN x) <= r)%R.
Proof.
  intros Hr Hx Hb. pose proof (RN_abs_le x r Hr Hx) as B.
  unfold round_to_float. destruct (Rlt_dec _ _) as [_|N]; [now split|].
  exfalso. lra.
Qed.

Lemma round_to_float_inv (x z : R) :
  round_to_float x = Fin z -> z = RN x /\ (Rabs (RN x) < bpow 1024)%R.
Proof.
  unfold round_to_float. destruct (Rlt_dec _ _) as [B|_]; intros H;
    [|discriminate H].
  injection H as <-. now split.
Qed.

Lemma round_to_float_cases (x : R) :
  round_to_float x = Fin (RN x) \/ round_to_float x = Inf (is_negative x).
Proof. unfold round_to_float. destruct (Rlt_dec _ _); [now left|now right]. Qed.

Lemma fmul_Fin (x y r : R) :
  representable r -> (Rabs (x * y) <= r)%R -> (r < bpow 1024)%R ->
  fmul (Fin x) (Fin y) = Fin (RN (x * y)) /\ (Rabs (RN (x * y)) <= r)%R.
Proof. intros Hr Hx Hb. cbn [fmul]. now apply round_to_float_Fin. Qed.

Lemma fmul_Fin_inv (x y z : R) :
  fmul (Fin x) (Fin y) = Fin z -> z = RN (x * y).
Proof. cbn [fmul]. intros H. now apply round_to_float_inv in H. Qed.

(** A product with a non-zero finite factor is finite only when the other
    factor is. *)
Lemma fmul_Fin_r_inv (a : float) (y z : R) :
  y <> 0%R -> fmul a (Fin y) = Fin z -> exists x, a = Fin x /\ z = RN (x * y).
Proof.
  intros Hy H. destruct a as [x|s|].
  - exists x. split; [reflexivity|now apply fmul_Fin_inv].
  - cbn [fmul] in H. destruct (Req_dec_T y 0); [contradiction|discriminate H].
  - discriminate H.
Qed.

Lemma fmul_0_r (a : float) (z : R) :
  fmul a (Fin 0) = Fin z -> z = 0%R.
Proof.
  intros H. destruct a as [x|s|].
  - apply fmul_Fin_inv in H. rewrite Rmult_0_r, RN_0 in H. exact H.
  - cbn [fmul] in H. destruct (Req_dec_T 0 0) as [_|N]; [discriminate H|].
    now elim N.
  - discriminate H.
Qed.

Lemma float_of_int_inv (z : Z) (f : float) :
  float_of_int z = Ok f -> f = Fin (RN (IZR z)).
Proof.
  unfold float_of_int. destruct (round_to_float_cases (IZR z)) as [E|E];
    rewrite E; intros H; [|discriminate H].
  now apply Ok_inj in H.
Qed.

Lemma float_of_int_Raise (z : Z) (e : PyError) :
  float_of_int z = Raise e -> e = OverflowError.
Proof.
  unfold float_of_int. destruct (round_to_float (IZR z)); intros H;
    [discriminate H|congruence|congruence].
Qed.

Lemma float_of_int_small (z : Z) :
  Z.abs z <= 2 ^ 53 -> float_of_int z = Ok (Fin (IZR z)).
Proof.
  intros H. unfold float_of_int.
  assert (representable (IZR (Z.abs z))) as Hr
    by (apply representable_IZR; rewrite Z.abs_idemp; exact H).
  destruct (round_to_float_Fin (IZR z) (IZR (Z.abs z)) Hr) as [E _].
  - rewrite abs_IZR. lra.
  - apply (bpow_finite _ 53); [|lia]. apply IZR_le_bpow; [lia|exact H].
  - rewrite E, RN_exact by (now apply representable_IZR). reflexivity.
Qed.

Lemma int_truediv_inv (a b : Z) (f : float) :
  int_truediv a b = Ok f -> b <> 0 /\ f = Fin (RN (IZR a / IZR b)).
Proof.
  unfold int_truediv. destruct (Z.eqb_spec b 0) as [->|N]; intros H;
    [discriminate H|].
  split; [exact N|].
  destruct (round_to_float_cases (IZR a / IZR b)) as [E|E]; rewrite E in H;
    [|discriminate H].
  now apply Ok_inj in H.
Qed.

Lemma int_truediv_Raise (a b : Z) (e : PyError) :
  int_truediv a b = Raise e ->
  (e = ZeroDivisionError /\ b = 0) \/ e = OverflowError.
Proof.
  unfold int_truediv. destruct (Z.eqb_spec b 0) as [->|N]; intros H.
  - left. split; [congruence|reflexivity].
  - right. destruct (round_to_float (IZR a / IZR b));
      [discriminate H|congruence|congruence].
Qed.

Lemma Rabs_div_IZR_le (a b : Z) :
  b <> 0 -> (Rabs (IZR a / IZR b) <= IZR (Z.abs a))%R.
Proof.
  intros Hb. assert (1 <= Z.abs b) as H1 by lia. apply IZR_le in H1.
  rewrite abs_IZR in H1. rewrite abs_IZR.
  unfold Rdiv. rewrite Rabs_mult, Rabs_inv.
  pose proof (Rabs_pos (IZR a)) as Pa.
  assert (0 < / Rabs (IZR b) <= 1)%R as [I1 I2].
  { split; [apply Rinv_0_lt_compat; lra|].
    rewrite <- Rinv_1. apply Rinv_le_contravar; lra. }
  nra.
Qed.

Lemma int_truediv_Ok (a b k : Z) :
  b <> 0 -> 0 <= k < 1024 -> Z.abs a <= 2 ^ k ->
  int_truediv a b = Ok (Fin (RN (IZR a / IZR b))) /\
  (Rabs (RN (IZR a / IZR b)) <= bpow k)%R.
Proof.
  intros Hb Hk Ha. unfold int_truediv.
  destruct (Z.eqb_spec b 0) as [E|_]; [contradiction|].
  destruct (round_to_float_Fin (IZR a / IZR b) (bpow k)) as [E B].
  - apply representable_bpow. lia.
  - apply Rle_trans with (IZR (Z.abs a)); [now apply Rabs_div_IZR_le|].
    apply IZR_le_bpow; lia.
  - apply bpow_lt. lia.
  - rewrite E. now split.
Qed.

Lemma int_of_float_Raise (x : float) (e : PyError) :
  int_of_float x = Raise e -> e = OverflowError \/ e = ValueError.
Proof.
  destruct x; cbn [int_of_float]; intros H;
    [discriminate H|left; congruence|right; congruence].
Qed.

Lemma int_of_float_inv (x : float) (z : Z) :
  int_of_float x = Ok z -> exists r, x = Fin r /\ z = py_int r.
Proof.
  destruct x as [r|s|]; cbn [int_of_float]; intros H;
    [|discriminate H|discriminate H].
  apply Ok_inj in H. now exists r.
Qed.

Lemma math_sin_inv {L : Libm} (w s : float) :
  math_sin w = Ok s ->
  (exists r, w = Fin r /\ s = Fin (libm_sin r)) \/ (w = NaN /\ s = NaN).
Proof.
  destruct w as [r|b|]; cbn [math_sin]; intros H; [|discriminate H|].
  - apply Ok_inj in H. left. now exists r.
  - apply Ok_inj in H. now right.
Qed.

(** ** Line 18 *)

Lemma product_inv (p : AudioParameters) (x : float) :
  product p = Ok x ->
  x = fmul (Fin (RN (IZR (sample_rate p)))) (Fin (duration p)).
Proof.
  unfold product. destruct (float_of_int (sample_rate p)) as [f|e] eqn:E;
    cbn [bind]; intros H; [|discriminate H].
  apply float_of_int_inv in E. subst f. now apply Ok_inj in H.
Qed.

Lemma num_samples_inv (p : AudioParameters) (n : Z) :
  num_samples p = Ok n ->
  exists x, product p = Ok (Fin x) /\ n = py_int x /\
    x = RN (RN (IZR (sample_rate p)) * duration p).
Proof.
  unfold num_samples. destruct (product p) as [x|e] eqn:E; cbn [bind];
    intros H; [|discriminate H].
  apply int_of_float_inv in H. destruct H as (r & -> & ->).
  exists r. split; [reflexivity|]. split; [reflexivity|].
  apply product_inv in E. symmetry in E. now apply fmul_Fin_inv in E.
Qed.

Lemma num_samples_Raise (p : AudioParameters) (e : PyError) :
  num_samples p = Raise e -> e = OverflowError \/ e = ValueError.
Proof.
  unfold num_samples, product.
  destruct (float_of_int (sample_rate p)) as [f|e1] eqn:E; cbn [bind]; intros H.
  - now apply int_of_float_Raise in H.
  - apply float_of_int_Raise in E. left. congruence.
Qed.

Lemma num_samples_Ok (p : AudioParameters) (k : Z) :
  Z.abs (sample_rate p) <= 2 ^ 53 -> 0 <= k < 1024 ->
  (Rabs (IZR (sample_rate p) * duration p) <= bpow k)%R ->
  num_samples p = Ok (py_int (RN (IZR (sample_rate p) * duration p))) /\
  product p = Ok (Fin (RN (IZR (sample_rate p) * duration p))) /\
  (Rabs (RN (IZR (sample_rate p) * duration p)) <= bpow k)%R.
Proof.
  intros Hsr Hk Hx. unfold num_samples, product.
  rewrite (float_of_int_small _ Hsr). cbn [bind].
  destruct (fmul_Fin (IZR (sample_rate p)) (duration p) (bpow k)) as [E B].
  - apply representable_bpow. lia.
  - exact Hx.
  - apply bpow_lt. lia.
  - rewrite E. cbn [int_of_float]. repeat split. exact B.
Qed.

Lemma num_samples_zero_rate (p : AudioParameters) :
  sample_rate p = 0 -> num_samples p = Ok 0.
Proof.
  intros H.
  destruct (num_samples_Ok p 0) as [E _].
  - rewrite H. simpl. lia.
  - lia.
  - rewrite H, Rmult_0_l, Rabs_R0. apply Rlt_le, bpow_pos.
  - rewrite E, H, Rmult_0_l, RN_0. f_equal. apply (py_int_IZR 0).
Qed.

(** ** The loop body *)

Lemma two_pi_bounds : (6 < 2 * math_pi < 8)%R.
Proof. unfold math_pi. lra. Qed.

Lemma representable_two_pi : representable (2 * math_pi).
Proof.
  exists 884279719003555, (-47). split; [|split; [simpl; lia|lia]].
  rewrite bpow_neg. unfold math_pi.
  change (2 ^ 47) with 140737488355328. field.
Qed.

Lemma two_pi_float : fmul (Fin 2) (Fin math_pi) = Fin (2 * math_pi).
Proof.
  destruct (fmul_Fin 2 math_pi (bpow 3)) as [E _].
  - apply representable_bpow. lia.
  - pose proof two_pi_bounds. rewrite Rabs_pos_eq by lra.
    rewrite bpow_IZR by lia. simpl. lra.
  - apply bpow_lt. lia.
  - rewrite E, RN_exact by apply representable_two_pi. reflexivity.
Qed.

Lemma angle_inv (p : AudioParameters) (i : Z) (w : float) :
  angle p i = Ok w ->
  sample_rate p <> 0 /\
  w = fmul (fmul (Fin (2 * math_pi)) (Fin (RN (IZR (frequency p)))))
           (Fin (RN (IZR i / IZR (sample_rate p)))).
Proof.
  unfold angle.
  destruct (int_truediv i (sample_rate p)) as [t|e] eqn:Et; cbn [bind];
    [|intros H; discriminate H].
  destruct (float_of_int (frequency p)) as [f|e] eqn:Ef; cbn [bind];
    intros H; [|discriminate H].
  apply int_truediv_inv in Et. destruct Et as [Hsr ->].
  apply float_of_int_inv in Ef. subst f. apply Ok_inj in H.
  rewrite two_pi_float in H. now split.
Qed.

Lemma angle_Raise (p : AudioParameters) (i : Z) (e : PyError) :
  angle p i = Raise e ->
  (e = ZeroDivisionError /\ sample_rate p = 0) \/ e = OverflowError.
Proof.
  unfold angle.
  destruct (int_truediv i (sample_rate p)) as [t|e1] eqn:Et; cbn [bind].
  - destruct (float_of_int (frequency p)) as [f|e2] eqn:Ef; cbn [bind];
      intros H; [discriminate H|].
    apply float_of_int_Raise in Ef. right. congruence.
  - intros H. apply int_truediv_Raise in Et.
    destruct Et as [[E1 E2]|E1]; [left|right]; [split|]; congruence.
Qed.

(** The two products of lines 26 and 28 on a finite sine. *)
Lemma quantize_inv (a s x : R) :
  fmul (fmul (Fin a) (Fin s)) (Fin 32767) = Fin x ->
  x = RN (RN (a * s) * 32767).
Proof.
  intros H. apply fmul_Fin_r_inv in H; [|lra].
  destruct H as (v & Hv & ->). apply fmul_Fin_inv in Hv. now subst v.
Qed.

Lemma quantize_Fin (a s : R) :
  (Rabs a <= 1)%R -> (Rabs s <= 1)%R ->
  fmul (fmul (Fin a) (Fin s)) (Fin 32767) = Fin (RN (RN (a * s) * 32767)) /\
  (Rabs (RN (RN (a * s) * 32767)) <= 32767)%R.
Proof.
  intros Ha Hs.
  destruct (fmul_Fin a s 1) as [E1 B1].
  { apply (representable_IZR 1). simpl. lia. }
  { replace 1%R with (1 * 1)%R by ring. now apply Rabs_mult_le. }
  { rewrite <- bpow_0. apply bpow_lt. lia. }
  rewrite E1.
  destruct (fmul_Fin (RN (a * s)) 32767 32767) as [E2 B2].
  { apply (representable_IZR 32767). simpl. lia. }
  { replace 32767%R with (1 * 32767)%R at 2 by ring.
    apply Rabs_mult_le; [exact B1|]. rewrite Rabs_pos_eq; lra. }
  { apply (bpow_finite _ 15); [|lia]. apply (IZR_le_bpow 32767 15); simpl; lia. }
  now split.
Qed.

Lemma scaled_value_inv {L : Libm} (p : AudioParameters) (i : Z) (x : R) :
  scaled_value p i = Ok (Fin x) ->
  exists w, angle p i = Ok (Fin w) /\
    x = RN (RN (amplitude p * libm_sin w) * 32767).
Proof.
  unfold scaled_value.
  destruct (angle p i) as [w|e] eqn:Ew; cbn [bind]; [|intros H; discriminate H].
  destruct (math_sin w) as [s|e] eqn:Es; cbn [bind]; intros H; [|discriminate H].
  apply Ok_inj in H. apply math_sin_inv in Es.
  destruct Es as [(r & -> & ->)|[-> ->]].
  - exists r. split; [reflexivity|]. now apply quantize_inv.
  - discriminate H.
Qed.

Lemma sample_at_inv {L : Libm} (p : AudioParameters) (i s : Z) :
  sample_at p i = Ok s ->
  exists x, scaled_value p i = Ok (Fin x) /\ s = py_int x.
Proof.
  unfold sample_at. destruct (scaled_value p i) as [x|e]; cbn [bind];
    intros H; [|discriminate H].
  apply int_of_float_inv in H. destruct H as (r & -> & ->). now exists r.
Qed.

Lemma scaled_value_Raise {L : Libm} (p : AudioParameters) (i : Z) (e : PyError) :
  scaled_value p i = Raise e ->
  (e = ZeroDivisionError /\ sample_rate p = 0) \/ e = OverflowError \/
  e = ValueError.
Proof.
  unfold scaled_value.
  destruct (angle p i) as [w|e1] eqn:Ew; cbn [bind].
  - destruct w as [r|b|]; cbn [math_sin bind]; intros H;
      [discriminate H| |discriminate H].
    right. right. congruence.
  - intros H. apply angle_Raise in Ew. destruct Ew as [[E1 E2]|E1].
    + left. split; congruence.
    + right. left. congruence.
Qed.

Lemma sample_at_Raise {L : Libm} (p : AudioParameters) (i : Z) (e : PyError) :
  sample_at p i = Raise e ->
  (e = ZeroDivisionError /\ sample_rate p = 0) \/ e = OverflowError \/
  e = ValueError.
Proof.
  unfold sample_at. destruct (scaled_value p i) as [x|e1] eqn:Ex; cbn [bind];
    intros H.
  - apply int_of_float_Raise in H. tauto.
  - apply scaled_value_Raise in Ex. destruct Ex as [[E1 E2]|E1].
    + left. split; congruence.
    + right. destruct E1; [left|right]; congruence.
Qed.

(** For moderate parameters the loop body cannot raise. *)
Lemma angle_Ok (p : AudioParameters) (i : Z) :
  sample_rate p <> 0 -> Z.abs i <= 2 ^ 62 -> Z.abs (frequency p) <= 2 ^ 53 ->
  exists w, angle p i = Ok (Fin w) /\
    w = RN (RN (2 * math_pi * IZR (frequency p)) *
            RN (IZR i / IZR (sample_rate p))).
Proof.
  intros Hsr Hi Hf. unfold angle.
  destruct (int_truediv_Ok i (sample_rate p) 62 Hsr) as [Et Bt]; [lia|exact Hi|].
  rewrite Et, (float_of_int_small _ Hf). cbn [bind]. rewrite two_pi_float.
  destruct (fmul_Fin (2 * math_pi) (IZR (frequency p)) (bpow 56)) as [E1 B1].
  { apply representable_bpow. lia. }
  { replace 56 with (3 + 53) by lia. rewrite bpow_add.
    apply Rabs_mult_le.
    - pose proof two_pi_bounds. rewrite Rabs_pos_eq by lra.
      rewrite bpow_IZR by lia. simpl. lra.
    - rewrite <- abs_IZR. apply IZR_le_bpow; [lia|exact Hf]. }
  { apply bpow_lt. lia. }
  rewrite E1.
  destruct (fmul_Fin (RN (2 * math_pi * IZR (frequency p)))
              (RN (IZR i / IZR (sample_rate p))) (bpow 118)) as [E2 B2].
  { apply representable_bpow. lia. }
  { replace 118 with (56 + 62) by lia. rewrite bpow_add.
    now apply Rabs_mult_le. }
  { apply bpow_lt. lia. }
  rewrite E2. eexists. split; reflexivity.
Qed.

Lemma sample_at_Ok {L : Libm} (p : AudioParameters) (i : Z) :
  sin_range L ->
  sample_rate p <> 0 -> Z.abs i <= 2 ^ 62 -> Z.abs (frequency p) <= 2 ^ 53 ->
  (Rabs (amplitude p) <= 1)%R ->
  exists s, sample_at p i = Ok s /\ -32767 <= s <= 32767.
Proof.
  intros HL Hsr Hi Hf Ha.
  destruct (angle_Ok p i Hsr Hi Hf) as (w & Ew & _).
  unfold sample_at, scaled_value. rewrite Ew. cbn [bind math_sin].
  destruct (quantize_Fin (amplitude p) (libm_sin w) Ha) as [E B].
  { apply Rabs_le. pose proof (HL w). lra. }
  rewrite E. cbn [bind int_of_float]. eexists. split; [reflexivity|].
  apply py_int_between; [lia|]. apply Rabs_bounds in B. simpl. lra.
Qed.

(** ** The generation loop *)

Lemma mapM_total {A B : Type} (f : A -> result B) (P : B -> Prop) (l : list A) :
  (forall a, In a l -> exists b, f a = Ok b /\ P b) ->
  exists bs, mapM f l = Ok bs /\ Forall P bs /\ length bs = length l.
Proof.
  induction l as [|a t IH]; intros H.
  - exists []. repeat split. constructor.
  - destruct (H a (or_introl eq_refl)) as (b & Eb & Pb).
    destruct IH as (bs & Ebs & Pbs & Lbs).
    { intros a' Ha'. apply H. now right. }
    exists (b :: bs). cbn [mapM]. rewrite Eb. cbn [bind]. rewrite Ebs.
    cbn [bind]. split; [reflexivity|]. split; [now constructor|].
    simpl. now rewrite Lbs.
Qed.

Lemma mapM_Raise_inv {A B : Type} (f : A -> result B) (l : list A) (e : PyError) :
  mapM f l = Raise e -> exists a, In a l /\ f a = Raise e.
Proof.
  induction l as [|a t IH]; cbn [mapM]; intros H; [discriminate H|].
  destruct (f a) as [b|e1] eqn:Ea; cbn [bind] in H.
  - destruct (mapM f t) as [bs|e2] eqn:Et; cbn [bind] in H; [discriminate H|].
    destruct (IH H) as (a' & Ha' & Ea'). exists a'. split; [now right|exact Ea'].
  - exists a. split; [now left|congruence].
Qed.

Lemma mapM_ext {A B : Type} (f g : A -> result B) (l : list A) :
  (forall a, In a l -> f a = g a) -> mapM f l = mapM g l.
Proof.
  induction l as [|a t IH]; intros H; [reflexivity|].
  cbn [mapM]. rewrite (H a) by now left.
  rewrite IH by (intros b Hb; apply H; now right). reflexivity.
Qed.

Lemma mapM_firstn {A B : Type} (f : A -> result B) (l : list A) (r : list B) (k : nat) :
  mapM f l = Ok r -> mapM f (firstn k l) = Ok (firstn k r).
Proof.
  revert l r; induction k as [|k IH]; intros l r H; [reflexivity|].
  destruct l as [|a t]; cbn [mapM] in H.
  - apply Ok_inj in H. subst r. reflexivity.
  - destruct (f a) as [b|e] eqn:Ea; cbn [bind] in H; [|discriminate H].
    destruct (mapM f t) as [bs|e] eqn:Et; cbn [bind] in H; [|discriminate H].
    apply Ok_inj in H. subst r. cbn [firstn mapM]. rewrite Ea. cbn [bind].
    rewrite (IH t bs Et). reflexivity.
Qed.

Lemma gen_samples_inv {L : Libm} (p : AudioParameters) (samples : list Z) :
  gen_samples p = Ok samples ->
  exists n, num_samples p = Ok n /\
    mapM (sample_at p) (range n) = Ok samples /\
    length samples = Z.to_nat n /\
    forall i, (i < length samples)%nat ->
      sample_at p (Z.of_nat i) = Ok (nth i samples 0).
Proof.
  unfold gen_samples. destruct (num_samples p) as [n|e]; cbn [bind];
    intros H; [|discriminate H].
  exists n. split; [reflexivity|]. split; [exact H|].
  destruct (mapM_Ok_inv _ _ _ H) as [Hl Hn]. rewrite range_length in Hl.
  split; [exact Hl|]. intros i Hi.
  rewrite <- (range_nth n i) by lia. apply Hn. rewrite range_length. lia.
Qed.

Lemma gen_samples_Raise {L : Libm} (p : AudioParameters) (e : PyError) :
  gen_samples p = Raise e -> e = OverflowError \/ e = ValueError.
Proof.
  unfold gen_samples. destruct (num_samples p) as [n|e1] eqn:En; cbn [bind];
    intros H.
  - apply mapM_Raise_inv in H. destruct H as (i & Hi & Ei).
    apply range_In in Hi. apply sample_at_Raise in Ei.
    destruct Ei as [[_ E0]|Ei]; [|exact Ei].
    exfalso. rewrite (num_samples_zero_rate p E0) in En.
    apply Ok_inj in En. lia.
  - apply num_samples_Raise in En. destruct En; [left|right]; congruence.
Qed.

(** For moderate parameters the generation cannot raise, and every sample
    it produces is within the 16-bit range. *)
Lemma gen_samples_Ok {L : Libm} (p : AudioParameters) :
  sin_range L ->
  0 < sample_rate p <= 2 ^ 53 -> Z.abs (frequency p) <= 2 ^ 53 ->
  (Rabs (IZR (sample_rate p) * duration p) <= bpow 62)%R ->
  (Rabs (amplitude p) <= 1)%R ->
  exists n samples,
    num_samples p = Ok n /\ gen_samples p = Ok samples /\
    n = py_int (RN (IZR (sample_rate p) * duration p)) /\
    length samples = Z.to_nat n /\
    Forall (fun s => -32767 <= s <= 32767) samples.
Proof.
  intros HL Hsr Hf Hx Ha.
  destruct (num_samples_Ok p 62) as (En & _ & Bn); [lia|lia|exact Hx|].
  set (n := py_int _) in En.
  assert (- 2 ^ 62 <= n <= 2 ^ 62) as Hn.
  { apply py_int_between; [lia|]. apply Rabs_bounds in Bn.
    rewrite opp_IZR, <- bpow_IZR by lia. exact Bn. }
  destruct (mapM_total (sample_at p) (fun s => -32767 <= s <= 32767) (range n))
    as (samples & Es & Ps & Ls).
  { intros i Hi. apply range_In in Hi. apply sample_at_Ok; try assumption; lia. }
  exists n, samples. unfold gen_samples. rewrite En. cbn [bind].
  rewrite range_length in Ls. repeat split; assumption.
Qed.

(** ** The whole byte sequence *)

Lemma wav_data_inv {L : Libm} (p : AudioParameters) (out : list byte) :
  wav_data p = Ok out ->
  exists n samples,
    num_samples p = Ok n /\ gen_samples p = Ok samples /\
    Z.of_nat (length samples) = n /\
    fits_u32 (36 + n * 2) /\ fits_u32 (sample_rate p) /\
    fits_u32 (sample_rate p * 2) /\ fits_u32 (n * 2) /\
    Forall in_i16 samples /\
    out = header_bytes (sample_rate p) n ++ flat_map (le_bytes 2) samples.
Proof.
  unfold wav_data, gen_samples.
  destruct (num_samples p) as [n|e]; cbn [bind]; [|intros H; discriminate H].
  destruct (mapM (sample_at p) (range n)) as [samples|e] eqn:Es; cbn [bind];
    intros H; [|discriminate H].
  apply encode_wav_inv in H. destruct H as (F1 & F2 & F3 & F4 & Hs & ->).
  exists n, samples. destruct (mapM_Ok_inv _ _ _ Es) as [Hl _].
  rewrite range_length in Hl.
  split; [reflexivity|]. split; [reflexivity|].
  split; [rewrite Hl; unfold fits_u32 in F4; lia|].
  repeat (split; [assumption|]). reflexivity.
Qed.

Lemma wav_data_Ok {L : Libm} (p : AudioParameters) (n : Z) (samples : list Z) :
  num_samples p = Ok n -> gen_samples p = Ok samples ->
  encodable (sample_rate p) n samples ->
  wav_data p = Ok (header_bytes (sample_rate p) n ++ flat_map (le_bytes 2) samples).
Proof.
  intros En Es (H1 & H2 & H3 & H4 & H5). unfold wav_data, gen_samples in *.
  rewrite En in *. cbn [bind] in *. rewrite Es. cbn [bind].
  apply encode_wav_Ok; unfold fits_u32; try lia. exact H5.
Qed.

Lemma wav_data_Raise {L : Libm} (p : AudioParameters) (e : PyError) :
  wav_data p = Raise e ->
  gen_samples p = Raise e \/
  (e = StructError /\ exists samples, gen_samples p = Ok samples).
Proof.
  unfold wav_data, gen_samples.
  destruct (num_samples p) as [n|e1]; cbn [bind];
    [|intros H; left; injection H as ->; reflexivity].
  destruct (mapM (sample_at p) (range n)) as [samples|e2]; cbn [bind];
    intros H; [|left; injection H as ->; reflexivity].
  right. apply encode_wav_Raise in H. split; [exact H|now exists samples].
Qed.

Lemma wav_length (sr n : Z) (samples : list Z) :
  Z.of_nat (length (header_bytes sr n ++ flat_map (le_bytes 2) samples)) =
  44 + 2 * Z.of_nat (length samples).
Proof.
  rewrite length_app, header_bytes_length, flat_map_le_bytes_length. lia.
Qed.

(** ** The compiled-in parameters *)

Lemma lit_0_3_bounds : (0 < lit_0_3 <= 1)%R.
Proof. unfold lit_0_3. lra. Qed.

Lemma representable_lit_0_3 : representable lit_0_3.
Proof.
  exists 5404319552844595, (-54). split; [|split; [simpl; lia|lia]].
  rewrite bpow_neg. unfold lit_0_3.
  change (2 ^ 54) with 18014398509481984. field.
Qed.

Lemma default_params_valid : valid_params default_params.
Proof.
  unfold valid_params; simpl. pose proof lit_0_3_bounds.
  repeat split; try lia; lra.
Qed.

(** At 48 kHz and amplitude 0.3, whatever the frequency below 2^53 and the
    duration up to a day. *)
Lemma gen_samples_48k {L : Libm} (f : Z) (d : R) (k : Z) :
  sin_range L -> Z.abs f <= 2 ^ 53 ->
  (0 <= d <= 86400)%R -> (48000 * d = IZR k)%R ->
  let p := {| sample_rate := 48000; duration := d; frequency := f;
              amplitude := lit_0_3 |} in
  exists samples,
    num_samples p = Ok k /\ gen_samples p = Ok samples /\
    length samples = Z.to_nat k /\
    Forall (fun s => -32767 <= s <= 32767) samples.
Proof.
  intros HL Hf Hd Hk p.
  assert (0 <= k <= 4147200000) as Bk.
  { split; [apply le_IZR|apply le_IZR]; rewrite <- Hk; lra. }
  destruct (gen_samples_Ok p HL) as (n & samples & En & Es & Hn & Hl & HF).
  - simpl. lia.
  - exact Hf.
  - cbn [sample_rate duration p]. rewrite Hk, <- abs_IZR.
    apply IZR_le_bpow; lia.
  - cbn [amplitude p]. pose proof lit_0_3_bounds. rewrite Rabs_pos_eq; lra.
  - cbn [sample_rate duration p] in Hn. rewrite Hk in Hn.
    rewrite RN_exact, py_int_IZR in Hn by (apply representable_IZR; lia).
    subst n. exists samples. repeat split; assumption.
Qed.

Lemma gen_samples_default {L : Libm} :
  sin_range L ->
  exists samples,
    num_samples default_params = Ok 48000 /\
    gen_samples default_params = Ok samples /\
    Z.of_nat (length samples) = 48000 /\
    Forall (fun s => -32767 <= s <= 32767) samples.
Proof.
  intros HL.
  assert (0 <= 1 <= 86400)%R as H1 by lra.
  assert (48000 * 1 = IZR 48000)%R as H2 by lra.
  assert (Z.abs 440 <= 2 ^ 53) as H0 by (simpl; lia).
  destruct (gen_samples_48k 440 1 48000 HL H0 H1 H2) as (samples & E1 & E2 & E3 & E4).
  exists samples. repeat split; try assumption.
  rewrite E3. reflexivity.
Qed.

Lemma in_i16_of_bound (samples : list Z) :
  Forall (fun s => -32767 <= s <= 32767) samples -> Forall in_i16 samples.
Proof.
  apply Forall_impl. intros s H. unfold in_i16. lia.
Qed.

Lemma wav_data_default {L : Libm} :
  sin_range L ->
  exists samples,
    gen_samples default_params = Ok samples /\
    Z.of_nat (length samples) = 48000 /\
    wav_data default_params =
      Ok (header_bytes 48000 48000 ++ flat_map (le_bytes 2) samples).
Proof.
  intros HL. destruct (gen_samples_default HL) as (samples & En & Es & Hl & HF).
  exists samples. split; [exact Es|]. split; [exact Hl|].
  apply (wav_data_Ok default_params 48000 samples En Es).
  unfold encodable. cbn [sample_rate default_params].
  repeat split; try lia. now apply in_i16_of_bound.
Qed.

(** ** A correctly rounded sine *)

Lemma rounded_sin_range : sin_range rounded_sin.
Proof.
  intros x. cbn [libm_sin rounded_sin].
  assert (Rabs (sin x) <= 1)%R as H
    by (apply Rabs_le; pose proof (SIN_bound x); lra).
  assert (representable 1) as R1 by (apply (representable_IZR 1); simpl; lia).
  pose proof (Rabs_bounds _ _ (RN_abs_le _ _ R1 H)). lra.
Qed.

Lemma rounded_sin_zero : sin_zero rounded_sin.
Proof. unfold sin_zero. cbn [libm_sin rounded_sin]. rewrite sin_0. apply RN_0. Qed.

Lemma bpow_m52 : bpow (-52) = (/ 4503599627370496)%R.
Proof.
  rewrite bpow_neg. reflexivity.
Qed.

Lemma bpow_m1074_le : (bpow (-1074) <= / 4503599627370496)%R.
Proof. rewrite <- bpow_m52. apply bpow_le. lia. Qed.

(** The rounding error in absolute terms: at most [(|x| + 1) / 2^53]. *)
Lemma RN_error_abs (x : R) :
  (Rabs (RN x - x) <= (Rabs x + 1) * / 9007199254740992)%R.
Proof.
  pose proof (RN_error x) as E. rewrite bpow_m52 in E.
  pose proof bpow_m1074_le as B. pose proof (bpow_pos (-1074)) as P.
  pose proof (Rabs_pos x). lra.
Qed.

Lemma rounded_sin_accurate : sin_accurate rounded_sin.
Proof.
  intros x. cbn [libm_sin rounded_sin].
  pose proof (RN_error_abs (sin x)) as E.
  assert (Rabs (sin x) <= 1)%R as B
    by (apply Rabs_le; pose proof (SIN_bound x); lra).
  lra.
Qed.

(** ** Accuracy of the computed angle *)

Lemma PI_bounds :
  (3141592653589793 / 1000000000000000 < PI < 3141592653589794 / 1000000000000000)%R.
Proof.
  pose proof (PI_2_3_7_ineq 8) as [Lo Up].
  unfold sum_f_R0, tg_alt, PI_2_3_7_tg, Ratan_seq in Lo, Up.
  simpl in Lo, Up. split; lra.
Qed.

Lemma math_pi_close : (Rabs (math_pi - PI) <= / 1000000000000000)%R.
Proof.
  pose proof PI_bounds as [Lo Up]. unfold math_pi. apply Rabs_le. lra.
Qed.

Lemma sin_abs_le (z : R) : (Rabs (sin z) <= Rabs z)%R.
Proof.
  assert (forall y, 0 <= y -> Rabs (sin y) <= y)%R as Hpos.
  { intros y Hy. destruct (Req_dec y 0) as [->|Hn].
    - rewrite sin_0, Rabs_R0. lra.
    - assert (0 < y)%R as Hy0 by lra. pose proof (sin_lt_x y Hy0) as Hs.
      apply Rabs_le. split; [|lra].
      destruct (Rle_dec y 1) as [H1|H1].
      + assert (0 <= sin y)%R.
        { apply sin_ge_0; [lra|]. pose proof PI_bounds. lra. }
        lra.
      + pose proof (SIN_bound y). lra. }
  destruct (Rle_dec 0 z) as [P|N].
  - rewrite (Rabs_pos_eq z P). now apply Hpos.
  - rewrite (Rabs_left1 z) by lra.
    rewrite <- (Rabs_Ropp (sin z)), <- sin_neg. apply Hpos. lra.
Qed.

Lemma sin_lipschitz (a b : R) : (Rabs (sin a - sin b) <= Rabs (a - b))%R.
Proof.
  rewrite form4, !Rabs_mult.
  pose proof (COS_bound ((a + b) / 2)) as C.
  assert (Rabs (cos ((a + b) / 2)) <= 1)%R as C1 by (apply Rabs_le; lra).
  pose proof (sin_abs_le ((a - b) / 2)) as S.
  assert (Rabs ((a - b) / 2) = Rabs (a - b) / 2)%R as E.
  { unfold Rdiv. rewrite Rabs_mult, (Rabs_pos_eq (/ 2)) by lra. reflexivity. }
  rewrite E in S. rewrite (Rabs_pos_eq 2) by lra.
  pose proof (Rabs_pos (cos ((a + b) / 2))).
  pose proof (Rabs_pos (sin ((a - b) / 2))). nra.
Qed.

(** The relative rounding error, away from the subnormal numbers. *)
Lemma RN_rel (x : R) :
  (bpow (-1022) <= Rabs x)%R ->
  (Rabs (RN x - x) <= Rabs x * / 9007199254740992)%R.
Proof.
  intros H. assert (x <> 0%R) as Hx.
  { intros ->. rewrite Rabs_R0 in H. pose proof (bpow_pos (-1022)). lra. }
  destruct (mag_spec x Hx) as [M1 M2].
  assert (-1022 <= mag x) as Hm.
  { assert (-1022 < mag x + 1) by (apply bpow_lt_inv; lra). lia. }
  assert (cexp x = mag x + -52) as Ec by (unfold cexp; lia).
  pose proof (bpow_pos (cexp x)) as P.
  assert (bpow (cexp x) <= Rabs x * / 4503599627370496)%R as B.
  { rewrite Ec, bpow_add, bpow_m52. pose proof (bpow_pos (mag x)). nra. }
  unfold RN. set (c := bpow (cexp x)) in *.
  pose proof (rne_error (x / c)) as E.
  replace (IZR (rne (x / c)) * c - x)%R with ((IZR (rne (x / c)) - x / c) * c)%R
    by (field; lra).
  rewrite Rabs_mult, (Rabs_pos_eq c) by lra.
  pose proof (Rabs_pos (IZR (rne (x / c)) - x / c)). nra.
Qed.

Lemma RN_rel_bounds (x : R) :
  (x = 0 \/ bpow (-1022) <= x)%R ->
  (x * (1 - / 9007199254740992) <= RN x <= x * (1 + / 9007199254740992))%R.
Proof.
  intros [->|H]; [rewrite RN_0; lra|].
  pose proof (bpow_pos (-1022)) as P.
  assert (bpow (-1022) <= Rabs x)%R as Ha by (rewrite Rabs_pos_eq; lra).
  pose proof (Rabs_bounds _ _ (RN_rel x Ha)) as B.
  rewrite Rabs_pos_eq in B by lra. lra.
Qed.

Lemma bpow_m1022_small : (bpow (-1022) <= / 18014398509481984)%R.
Proof.
  replace (/ 18014398509481984)%R with (bpow (-54)).
  - apply bpow_le. lia.
  - rewrite bpow_neg. reflexivity.
Qed.

(** The product of two approximations. *)
Lemma mult_rel_bounds (X Y x y lo hi : R) :
  (0 <= X)%R -> (0 <= Y)%R -> (0 <= lo)%R -> (lo <= hi)%R ->
  (X * lo <= x <= X * hi)%R -> (Y * lo <= y <= Y * hi)%R ->
  (X * Y * (lo * lo) <= x * y <= X * Y * (hi * hi))%R.
Proof.
  intros HX HY Hlo Hhi [x1 x2] [y1 y2].
  assert (0 <= X * lo)%R by nra. assert (0 <= Y * lo)%R by nra.
  split.
  - replace (X * Y * (lo * lo))%R with ((X * lo) * (Y * lo))%R by ring.
    apply Rmult_le_compat; lra.
  - replace (X * Y * (hi * hi))%R with ((X * hi) * (Y * hi))%R by ring.
    apply Rmult_le_compat; lra.
Qed.

(** For 53-bit parameters the computed angle is within a relative error
    of 2^-51 of [ideal_angle]. *)
Lemma angle_close (p : AudioParameters) (i : Z) :
  0 < sample_rate p <= 2 ^ 53 -> 0 < frequency p <= 2 ^ 53 ->
  0 <= i <= 2 ^ 62 ->
  exists w, angle p i = Ok (Fin w) /\
    (Rabs (w - ideal_angle p i) <= ideal_angle p i * / 2251799813685248)%R /\
    (0 <= ideal_angle p i)%R.
Proof.
  intros Hsr Hf Hi.
  destruct (angle_Ok p i) as (w & Ew & ->); [lia|lia|lia|].
  exists (RN (RN (2 * math_pi * IZR (frequency p)) *
              RN (IZR i / IZR (sample_rate p)))).
  split; [exact Ew|].
  pose proof two_pi_bounds as [T1 T2]. pose proof bpow_m1022_small as Bs.
  pose proof (bpow_pos (-1022)) as Bp.
  assert (1 <= IZR (frequency p))%R as F1 by (apply (IZR_le 1); lia).
  assert (1 <= IZR (sample_rate p) <= 9007199254740992)%R as [S1 S2].
  { split; [apply (IZR_le 1); lia|]. apply (IZR_le _ (2 ^ 53)). lia. }
  assert (0 <= IZR i)%R as I0 by (apply (IZR_le 0); lia).
  set (C := (2 * math_pi * IZR (frequency p))%R) in *.
  set (T := (IZR i / IZR (sample_rate p))%R) in *.
  assert (0 < / IZR (sample_rate p))%R as Si by (apply Rinv_0_lt_compat; lra).
  assert (0 <= T)%R as T0 by (unfold T, Rdiv; nra).
  assert (6 <= C)%R as C6 by (unfold C; nra).
  assert (ideal_angle p i = C * T)%R as -> by (unfold ideal_angle, C, T; ring).
  assert (T = 0 \/ bpow (-1022) <= T)%R as HT.
  { destruct (Z.eq_dec i 0) as [->|Ni].
    - left. unfold T, Rdiv. simpl. ring.
    - right. assert (1 <= IZR i)%R by (apply (IZR_le 1); lia).
      assert (/ 9007199254740992 <= / IZR (sample_rate p))%R
        by (apply Rinv_le_contravar; lra).
      unfold T, Rdiv. nra. }
  set (u := (/ 9007199254740992)%R) in *.
  assert (0 < u < / 1000)%R as Hu by (unfold u; lra).
  assert (C = 0 \/ bpow (-1022) <= C)%R as HC by (right; lra).
  pose proof (RN_rel_bounds C HC) as Bc.
  pose proof (RN_rel_bounds T HT) as Bt. fold u in Bc, Bt.
  assert (0 <= C)%R as C0 by lra.
  assert (0 <= 1 - u)%R as U0 by lra.
  assert (1 - u <= 1 + u)%R as U1 by lra.
  pose proof (mult_rel_bounds C T (RN C) (RN T) (1 - u) (1 + u)
                C0 T0 U0 U1 Bc Bt) as Bp2.
  set (c := RN C) in *. set (t := RN T) in *.
  assert (0 <= C * T)%R as P0 by nra.
  assert (0 <= c * t)%R as P1 by nra.
  assert (c * t = 0 \/ bpow (-1022) <= c * t)%R as Hct.
  { destruct HT as [E0|HTn].
    - left. unfold t. rewrite E0, RN_0. ring.
    - right. assert (T * (1 - u) <= t)%R by lra.
      assert (5 <= c)%R by nra. nra. }
  pose proof (RN_rel_bounds (c * t) Hct) as Bw. fold u in Bw.
  split; [|exact P0].
  replace (/ 2251799813685248)%R with (4 * u)%R by (unfold u; lra).
  apply Rabs_le. split; nra.
Qed.



(** ** Range of the samples *)

Lemma num_samples_nonneg (p : AudioParameters) (n : Z) :
  0 <= sample_rate p -> (0 <= duration p)%R -> num_samples p = Ok n -> 0 <= n.
Proof.
  intros Hsr Hd H. apply num_samples_inv in H. destruct H as (x & _ & -> & ->).
  apply py_int_nonneg. apply RN_nonneg.
  assert (0 <= RN (IZR (sample_rate p)))%R
    by (apply RN_nonneg; now apply (IZR_le 0)).
  nra.
Qed.

Lemma gen_samples_count {L : Libm} (p : AudioParameters) (samples : list Z) :
  0 <= sample_rate p -> (0 <= duration p)%R -> gen_samples p = Ok samples ->
  num_samples p = Ok (Z.of_nat (length samples)).
Proof.
  intros Hsr Hd H. destruct (gen_samples_inv p samples H) as (n & En & _ & Hl & _).
  pose proof (num_samples_nonneg p n Hsr Hd En). rewrite Hl, Z2Nat.id by lia.
  exact En.
Qed.

Lemma Forall_nth_Z (P : Z -> Prop) (l : list Z) :
  (forall i, (i < length l)%nat -> P (nth i l 0)) -> Forall P l.
Proof.
  intros H. apply Forall_forall. intros s Hs.
  destruct (In_nth l s 0 Hs) as (i & Hi & <-). now apply H.
Qed.

(** Every produced sample is the truncation of a value bounded by [b],
    when [b] is a binary64 bound of the scaled amplitude. *)
Lemma sample_at_bound {L : Libm} (p : AudioParameters) (i s : Z) (a b : R) :
  sin_range L ->
  representable a -> (Rabs (amplitude p) <= a)%R ->
  representable b -> (a * 32767 <= b)%R ->
  sample_at p i = Ok s ->
  exists x, scaled_value p i = Ok (Fin x) /\ s = py_int x /\ (Rabs x <= b)%R.
Proof.
  intros HL Ra Ha Rb Hb H.
  destruct (sample_at_inv p i s H) as (x & Ex & ->).
  exists x. split; [exact Ex|]. split; [reflexivity|].
  destruct (scaled_value_inv p i x Ex) as (w & _ & ->).
  assert (Rabs (libm_sin w) <= 1)%R as Hs
    by (apply Rabs_le; pose proof (HL w); lra).
  pose proof (Rabs_pos (amplitude p)) as Pa.
  assert (Rabs (RN (amplitude p * libm_sin w)) <= a)%R as Hv.
  { apply RN_abs_le; [exact Ra|]. rewrite Rabs_mult.
    pose proof (Rabs_pos (libm_sin w)). nra. }
  apply RN_abs_le; [exact Rb|]. rewrite Rabs_mult, (Rabs_pos_eq 32767) by lra.
  pose proof (Rabs_pos (RN (amplitude p * libm_sin w))). nra.
Qed.

Lemma samples_in_i16 {L : Libm} (p : AudioParameters) (samples : list Z) :
  sin_range L -> (Rabs (amplitude p) <= 1)%R ->
  gen_samples p = Ok samples -> Forall in_i16 samples.
Proof.
  intros HL Ha H. destruct (gen_samples_inv p samples H) as (n & _ & _ & _ & Hn).
  apply Forall_nth_Z. intros i Hi.
  destruct (sample_at_bound p (Z.of_nat i) (nth i samples 0) 1 32767 HL)
    as (x & _ & -> & Bx).
  - apply (representable_IZR 1). simpl. lia.
  - exact Ha.
  - apply (representable_IZR 32767). simpl. lia.
  - lra.
  - now apply Hn.
  - apply Rabs_bounds in Bx.
    assert (-32767 <= py_int x <= 32767)
      by (apply py_int_between; [lia|simpl; lra]).
    unfold in_i16. lia.
Qed.

(** * The claims *)

(** C1 (header correctness).  For valid AudioParameters, whenever the
    program produces its byte sequence, that sequence has at least 44 bytes
    and its first 44 bytes follow the fixed WAV layout: "RIFF", the u32
    36 + data_size, "WAVE", "fmt ", u32 16, u16 1, u16 1, u32 sample rate,
    u32 sample_rate * 2, u16 2, u16 16, "data", u32 data_size, with
    data_size twice the number of samples.  When the generation loop has
    completed, the sequence is produced if the byte rate and the file size
    fit an unsigned 32-bit field. *)
Theorem header_correct {L : Libm} (p : AudioParameters) :
  valid_params p -> sin_range L ->
  (forall out, wav_data p = Ok out ->
   exists samples, gen_samples p = Ok samples /\
     (44 <= length out)%nat /\
     header_layout out (sample_rate p) (Z.of_nat (length samples))) /\
  (forall samples, gen_samples p = Ok samples ->
   fits_u32 (sample_rate p * 2) ->
   fits_u32 (36 + Z.of_nat (length samples) * 2) ->
   exists out, wav_data p = Ok out).
Proof.
  intros (Hsr & Hd & Hf & Ha) HL. split.
  - intros out H. apply wav_data_inv in H.
    destruct H as (n & samples & En & Es & Hl & F1 & F2 & F3 & F4 & _ & ->).
    exists samples. split; [exact Es|]. split.
    + rewrite length_app, header_bytes_length. lia.
    + rewrite Hl. now apply header_bytes_layout.
  - intros samples Es F3 F1. eexists.
    apply (wav_data_Ok p (Z.of_nat (length samples)) samples).
    + apply gen_samples_count; [lia|lra|exact Es].
    + exact Es.
    + unfold encodable, fits_u32 in *. repeat split; try lia.
      apply (samples_in_i16 p samples HL); [|exact Es].
      rewrite Rabs_pos_eq; lra.
Qed.

Lemma header_correct_witness :
  valid_params default_params /\ sin_range rounded_sin /\
  exists out, @wav_data rounded_sin default_params = Ok out /\
    header_layout out 48000 48000.
Proof.
  split; [exact default_params_valid|]. split; [exact rounded_sin_range|].
  destruct (@wav_data_default rounded_sin rounded_sin_range)
    as (samples & Es & Hl & Ew).
  eexists. split; [exact Ew|].
  destruct (@header_correct rounded_sin default_params default_params_valid
              rounded_sin_range) as [Hlay _].
  destruct (Hlay _ Ew) as (samples' & Es' & _ & Lay).
  rewrite Es in Es'. apply Ok_inj in Es'. subst samples'.
  rewrite Hl in Lay. exact Lay.
Defined.

(** C2 (concrete scenario).  With the compiled-in parameters the program
    produces exactly 44 + 48000 * 2 = 96044 bytes; bytes 24-27 decode
    (little-endian, unsigned 32-bit) to 48000 and bytes 34-35 decode
    (unsigned 16-bit) to 16.  This holds with any C library whose sine
    stays within [-1, 1]. *)
Theorem concrete_scenario {L : Libm} :
  sin_range L ->
  exists out, wav_data default_params = Ok out /\
    Z.of_nat (length out) = 96044 /\
    u32_at 24 out = 48000 /\
    u16_at 34 out = 16.
Proof.
  intros HL. destruct (wav_data_default HL) as (samples & Es & Hl & Ew).
  eexists. split; [exact Ew|]. split.
  - rewrite wav_length, Hl. reflexivity.
  - assert (header_layout
              (header_bytes 48000 48000 ++ flat_map (le_bytes 2) samples)
              48000 48000) as Lay
      by (apply header_bytes_layout; unfold fits_u32; lia).
    unfold header_layout in Lay.
    destruct Lay as (_ & _ & _ & _ & _ & _ & _ & L24 & _ & _ & L34 & _).
    split; [exact L24|exact L34].
Qed.

Lemma concrete_scenario_witness :
  exists out, @wav_data rounded_sin default_params = Ok out /\
    Z.of_nat (length out) = 96044.
Proof.
  destruct (@concrete_scenario rounded_sin rounded_sin_range)
    as (out & Ew & Hl & _).
  exists out. now split.
Defined.

(** ** The sample count *)

Lemma representable_three_quarters : representable (3 / 4).
Proof.
  exists 3, (-2). split; [|split; [simpl; lia|lia]].
  rewrite bpow_neg. change (2 ^ 2) with 4. field.
Qed.

Lemma num_samples_short :
  product short_params = Ok (Fin (3 / 4)) /\ num_samples short_params = Ok 0.
Proof.
  destruct (num_samples_Ok short_params 0) as (En & Ep & _).
  - simpl. lia.
  - lia.
  - cbn [sample_rate duration short_params]. rewrite bpow_0.
    rewrite Rabs_pos_eq; lra.
  - cbn [sample_rate duration short_params] in En, Ep.
    replace (3 * (1 / 4))%R with (3 / 4)%R in En, Ep by lra.
    rewrite RN_exact in En, Ep by apply representable_three_quarters.
    split; [exact Ep|]. rewrite En. f_equal.
    apply py_int_unique_nonneg; [simpl; lra|lia].
Qed.

(** C3 (sample count), as stated: the length of the sample buffer is
    round(sample_rate * duration).  It fails for sample_rate = 3 and
    duration = 0.25: the product is exactly 0.75, the buffer is empty
    whatever the C library, and 0.75 does not round to 0. *)
Lemma sample_count_round_fails :
  (0 < sample_rate short_params /\ (0 < duration short_params)%R) /\
  product short_params = Ok (Fin (3 / 4)) /\
  (forall L : Libm, @gen_samples L short_params = Ok []) /\
  ~ nearest_int (3 / 4) 0.
Proof.
  destruct num_samples_short as [Ep En].
  split; [split; simpl; [lia|lra]|]. split; [exact Ep|]. split.
  - intros L. unfold gen_samples. rewrite En. reflexivity.
  - unfold nearest_int. simpl. rewrite Rabs_pos_eq by lra. lra.
Qed.

(** C3 (sample count), amended: for positive sample_rate and duration the
    length n of the sample buffer is the binary64 product
    sample_rate * duration truncated to an integer, n <= x < n + 1 for
    that product x; it is round(x) whenever x is an integer. *)
Theorem sample_count_truncates {L : Libm} (p : AudioParameters) (samples : list Z) :
  0 < sample_rate p -> (0 < duration p)%R ->
  gen_samples p = Ok samples ->
  exists x, product p = Ok (Fin x) /\
    x = RN (RN (IZR (sample_rate p)) * duration p) /\
    let n := Z.of_nat (length samples) in
    num_samples p = Ok n /\
    n = py_int x /\
    (IZR n <= x < IZR n + 1)%R /\
    (forall z, x = IZR z -> n = z /\ nearest_int x n).
Proof.
  intros Hsr Hd Es. cbv zeta.
  assert (num_samples p = Ok (Z.of_nat (length samples))) as En
    by (apply gen_samples_count; [lia|lra|exact Es]).
  destruct (num_samples_inv p _ En) as (x & Ep & Hn & Hx).
  exists x. split; [exact Ep|]. split; [exact Hx|]. split; [exact En|].
  split; [exact Hn|].
  assert (0 <= x)%R as Px.
  { rewrite Hx. apply RN_nonneg.
    assert (0 <= RN (IZR (sample_rate p)))%R
      by (apply RN_nonneg; apply (IZR_le 0); lia).
    nra. }
  destruct (py_int_nonneg x Px) as [B _]. rewrite <- Hn in B.
  split; [exact B|]. intros z Hz.
  assert (Z.of_nat (length samples) = z) as E
    by (rewrite Hn, Hz; apply py_int_IZR).
  split; [exact E|]. unfold nearest_int. rewrite E, Hz.
  replace (IZR z - IZR z)%R with 0%R by ring. rewrite Rabs_R0. lra.
Qed.

Lemma sample_count_truncates_witness :
  exists samples, @gen_samples rounded_sin default_params = Ok samples /\
    product default_params = Ok (Fin 48000) /\
    Z.of_nat (length samples) = 48000.
Proof.
  destruct (@gen_samples_default rounded_sin rounded_sin_range)
    as (samples & En & Es & Hl & _).
  exists samples. split; [exact Es|].
  assert (0 < sample_rate default_params) as H1 by (simpl; lia).
  assert (0 < duration default_params)%R as H2 by (simpl; lra).
  destruct (@sample_count_truncates rounded_sin default_params samples H1 H2 Es)
    as (x & Ep & _ & _ & Hn & _ & Hz).
  split; [|exact Hl].
  destruct (num_samples_inv _ _ En) as (x' & Ep' & _ & Hx').
  rewrite Ep in Ep'. apply Ok_inj in Ep'. injection Ep' as <-.
  rewrite Ep. f_equal. f_equal.
  rewrite Hx'. cbn [sample_rate duration default_params].
  rewrite (RN_exact 48000) by (apply (representable_IZR 48000); lia).
  rewrite Rmult_1_r. apply RN_exact. apply (representable_IZR 48000). lia.
Defined.

(** ** Amplitude *)

Lemma representable_half_odd (r : Z) :
  0 <= r < 2 ^ 52 -> representable (IZR r + 1 / 2).
Proof.
  intros H. exists (2 * r + 1), (-1). split; [|split; [lia|lia]].
  rewrite bpow_neg, plus_IZR, mult_IZR. change (2 ^ 1) with 2. simpl. field.
Qed.

(** C5 (amplitude bound).  For a non-negative binary64 amplitude and r an
    integer nearest to amplitude * 32767 (below 2^52), every sample v that
    the generation loop produces satisfies -r <= v <= r. *)
Theorem amplitude_bound {L : Libm} (p : AudioParameters) (r : Z) (samples : list Z) :
  sin_range L ->
  (0 <= amplitude p)%R -> representable (amplitude p) ->
  nearest_int (amplitude p * 32767) r -> r < 2 ^ 52 ->
  gen_samples p = Ok samples ->
  Forall (fun v => - r <= v <= r) samples.
Proof.
  intros HL Ha Ra Hr Hr52 Es.
  apply nearest_int_bounds in Hr.
  assert (0 <= r) as Hr0 by (apply IZR_nonneg_of_gt_m1; nra).
  destruct (gen_samples_inv p samples Es) as (n & _ & _ & _ & Hn).
  apply Forall_nth_Z. intros i Hi.
  destruct (sample_at_bound p (Z.of_nat i) (nth i samples 0)
              (amplitude p) (IZR r + 1 / 2) HL Ra)
    as (x & _ & -> & Bx).
  - rewrite Rabs_pos_eq; lra.
  - apply representable_half_odd. lia.
  - lra.
  - now apply Hn.
  - apply Rabs_bounds in Bx. apply py_int_within; [lia|].
    rewrite opp_IZR. lra.
Qed.

(** In particular, for amplitude 0.3 every sample lies in [-9830, 9830]. *)
Lemma amplitude_bound_witness :
  nearest_int (lit_0_3 * 32767) 9830 /\
  exists samples, @gen_samples rounded_sin default_params = Ok samples /\
    Forall (fun v => - 9830 <= v <= 9830) samples.
Proof.
  assert (nearest_int (amplitude default_params * 32767) 9830) as Hr.
  { unfold nearest_int; simpl. unfold lit_0_3. rewrite Rabs_pos_eq by lra. lra. }
  split; [exact Hr|].
  destruct (@gen_samples_default rounded_sin rounded_sin_range)
    as (samples & _ & Es & _ & _).
  exists samples. split; [exact Es|].
  apply (@amplitude_bound rounded_sin default_params 9830 samples
           rounded_sin_range).
  - pose proof lit_0_3_bounds. simpl. lra.
  - exact representable_lit_0_3.
  - exact Hr.
  - lia.
  - exact Es.
Defined.

(** C8 (sample range).  For valid parameters (amplitude at most 1) every
    sample the generation loop produces fits a signed 16-bit integer, so
    packing it with [struct.pack('<h', sample)] never raises, the two bytes
    read back as the sample, and the loop of lines 58-59 appends two bytes
    per sample. *)
Theorem samples_fit_int16 {L : Libm} (p : AudioParameters) (samples : list Z) :
  sin_range L -> valid_params p ->
  gen_samples p = Ok samples ->
  Forall in_i16 samples /\
  (forall s, In s samples ->
     pack_h s = Ok (le_bytes 2 s) /\ i16_at 0 (le_bytes 2 s) = s) /\
  (forall wav, extend_samples wav samples =
               Ok (wav ++ flat_map (le_bytes 2) samples)).
Proof.
  intros HL (_ & _ & _ & Ha) Es.
  assert (Forall in_i16 samples) as HF.
  { apply (samples_in_i16 p samples HL); [|exact Es]. rewrite Rabs_pos_eq; lra. }
  split; [exact HF|]. split.
  - intros s Hs. rewrite Forall_forall in HF. specialize (HF s Hs).
    split; [now apply pack_h_Ok|now apply i16_roundtrip].
  - intros wav. now apply extend_samples_Ok.
Qed.

Lemma samples_fit_int16_witness :
  exists samples, @gen_samples rounded_sin default_params = Ok samples /\
    Forall in_i16 samples.
Proof.
  destruct (@gen_samples_default rounded_sin rounded_sin_range)
    as (samples & _ & Es & _ & _).
  exists samples. split; [exact Es|].
  exact (proj1 (@samples_fit_int16 rounded_sin default_params samples
                  rounded_sin_range default_params_valid Es)).
Defined.

(** ** Quantization *)

Lemma sqrt2_bounds : (141421 / 100000 < sqrt 2 < 141422 / 100000)%R.
Proof.
  assert (0 <= sqrt 2)%R as H0 by apply sqrt_pos.
  assert (sqrt 2 * sqrt 2 = 2)%R as H2 by (apply sqrt_sqrt; lra).
  split.
  - destruct (Rlt_le_dec (141421 / 100000) (sqrt 2)) as [Lt|Le]; [exact Lt|].
    exfalso. assert (sqrt 2 * sqrt 2 <= 141421 / 100000 * (141421 / 100000))%R
      by (apply Rmult_le_compat; lra). lra.
  - destruct (Rlt_le_dec (sqrt 2) (141422 / 100000)) as [Lt|Le]; [exact Lt|].
    exfalso. assert (141422 / 100000 * (141422 / 100000) <= sqrt 2 * sqrt 2)%R
      by (apply Rmult_le_compat; lra). lra.
Qed.

(** The sine of 11 pi / 4. *)
Lemma sin_11PI4 : sin (11 * (PI / 4)) = (sqrt 2 / 2)%R.
Proof.
  replace (11 * (PI / 4))%R with (3 * (PI / 4) + 2 * INR 1 * PI)%R
    by (simpl; field).
  rewrite sin_period, sin_3PI4.
  assert (0 <= sqrt 2)%R as H0 by apply sqrt_pos.
  assert (sqrt 2 * sqrt 2 = 2)%R as H2 by (apply sqrt_sqrt; lra).
  assert (sqrt 2 <> 0)%R as Hne by (intros E; rewrite E in H2; lra).
  apply (Rmult_eq_reg_r (sqrt 2)); [|exact Hne]. field_simplify; [|exact Hne].
  lra.
Qed.

(** At index 150 the exact angle is 11 pi / 4 and the exact scaled value
    lies strictly between 6950.5 and 6951. *)
Lemma exact_value_150 :
  (6950 + 1 / 2 < lit_0_3 * sin (2 * PI * 440 * (150 / 48000)) * 32767 < 6951)%R.
Proof.
  replace (2 * PI * 440 * (150 / 48000))%R with (11 * (PI / 4))%R by field.
  rewrite sin_11PI4. pose proof sqrt2_bounds as [Lo Up]. unfold lit_0_3. lra.
Qed.

(** So does the value the program computes there, with any accurate C
    library. *)
Lemma scaled_value_default_150 {L : Libm} :
  sin_range L -> sin_accurate L ->
  exists x, scaled_value default_params 150 = Ok (Fin x) /\
    (6950 + 1 / 2 < x < 6951)%R.
Proof.
  intros HL HA.
  destruct (angle_close default_params 150) as (w & Ew & Bw & _);
    [simpl; lia|simpl; lia|lia|].
  assert (ideal_angle default_params 150 = 11 * (math_pi / 4))%R as Ei
    by (unfold ideal_angle; simpl; field).
  rewrite Ei in Bw.
  pose proof math_pi_close as Bpi. apply Rabs_bounds in Bpi, Bw.
  pose proof PI_bounds as [P1 P2].
  assert (Rabs (w - 11 * (PI / 4)) <= / 10000000000000)%R as Hw.
  { apply Rabs_le. unfold math_pi in *. lra. }
  pose proof (sin_lipschitz w (11 * (PI / 4))) as Hs. rewrite sin_11PI4 in Hs.
  pose proof (HA w) as Ha. pose proof (HL w) as Hr.
  apply Rabs_bounds in Ha.
  assert (Rabs (sin w - sqrt 2 / 2) <= / 10000000000000)%R as Hs' by lra.
  apply Rabs_bounds in Hs'. pose proof sqrt2_bounds as [S1 S2].
  set (s := libm_sin w) in *.
  assert (707104 / 1000000 < s < 707111 / 1000000)%R as Bs by lra.
  unfold scaled_value. rewrite Ew. cbn [bind math_sin]. fold s.
  cbn [amplitude default_params].
  destruct (quantize_Fin lit_0_3 s) as [E _].
  { pose proof lit_0_3_bounds. rewrite Rabs_pos_eq; lra. }
  { rewrite Rabs_pos_eq; lra. }
  rewrite E. eexists. split; [reflexivity|].
  pose proof (RN_error_abs (lit_0_3 * s)) as E1.
  set (v := RN (lit_0_3 * s)) in *.
  assert (2121 / 10000 < lit_0_3 * s < 2122 / 10000)%R as Bas
    by (unfold lit_0_3; lra).
  rewrite (Rabs_pos_eq (lit_0_3 * s)) in E1 by lra.
  apply Rabs_bounds in E1.
  pose proof (RN_error_abs (v * 32767)) as E2.
  assert (0 < v * 32767 < 7000)%R as Bv by lra.
  rewrite (Rabs_pos_eq (v * 32767)) in E2 by lra.
  apply Rabs_bounds in E2. unfold lit_0_3 in *. lra.
Qed.

Lemma default_sample_150 {L : Libm} (samples : list Z) :
  sin_range L -> sin_accurate L ->
  gen_samples default_params = Ok samples ->
  (150 < length samples)%nat /\ nth 150 samples 0 = 6950.
Proof.
  intros HL HA Es.
  destruct (gen_samples_default HL) as (samples' & _ & Es' & Hl & _).
  rewrite Es in Es'. apply Ok_inj in Es'. subst samples'.
  assert (150 < length samples)%nat as Hi by lia. split; [exact Hi|].
  destruct (gen_samples_inv _ _ Es) as (_ & _ & _ & _ & Hn).
  specialize (Hn 150%nat Hi). change (Z.of_nat 150) with 150 in Hn.
  destruct (sample_at_inv _ _ _ Hn) as (x & Ex & ->).
  destruct (scaled_value_default_150 HL HA) as (x' & Ex' & B).
  rewrite Ex in Ex'. apply Ok_inj in Ex'. injection Ex' as <-.
  apply py_int_unique_nonneg; [simpl; lra|lia].
Qed.

(** C4 (quantization), as stated: every emitted sample is
    round(amplitude * sin(2 pi f i / sample_rate) * 32767).  It fails for the
    compiled-in parameters at index 150: the scaled value, exact or as
    computed with any accurate C library, lies strictly between 6950.5 and
    6951, and the program emits 6950, which is not a nearest integer. *)
Lemma quantization_round_fails :
  (sin_range rounded_sin /\ sin_accurate rounded_sin) /\
  (6950 + 1 / 2 < lit_0_3 * sin (2 * PI * 440 * (150 / 48000)) * 32767 < 6951)%R /\
  forall L : Libm, sin_range L -> sin_accurate L ->
    exists samples x,
      gen_samples default_params = Ok samples /\
      (150 < length samples)%nat /\
      scaled_value default_params 150 = Ok (Fin x) /\
      (6950 + 1 / 2 < x < 6951)%R /\
      nth 150 samples 0 = 6950 /\
      ~ nearest_int x (nth 150 samples 0).
Proof.
  split; [split; [exact rounded_sin_range|exact rounded_sin_accurate]|].
  split; [exact exact_value_150|].
  intros L HL HA.
  destruct (gen_samples_default HL) as (samples & _ & Es & _ & _).
  destruct (scaled_value_default_150 HL HA) as (x & Ex & B).
  destruct (default_sample_150 samples HL HA Es) as [Hi Hv].
  exists samples, x. repeat (split; [assumption|]).
  rewrite Hv. unfold nearest_int. rewrite Rabs_pos_eq by lra. lra.
Qed.

(** C4 (quantization), amended: for every sample index i the emitted
    sample is the binary64 value x that lines 24-28 compute for
    amplitude * sin(2 pi f i / sample_rate) * 32767, truncated toward zero:
    it is the integer s with s <= x < s + 1 when x is non-negative and with
    s - 1 < x <= s when x is non-positive. *)
Theorem quantization_truncates {L : Libm} (p : AudioParameters)
    (samples : list Z) (i : nat) :
  gen_samples p = Ok samples -> (i < length samples)%nat ->
  exists w x,
    angle p (Z.of_nat i) = Ok (Fin w) /\
    scaled_value p (Z.of_nat i) = Ok (Fin x) /\
    x = RN (RN (amplitude p * libm_sin w) * 32767) /\
    let s := nth i samples 0 in
    s = py_int x /\
    ((0 <= x)%R -> (IZR s <= x < IZR s + 1)%R /\ 0 <= s) /\
    ((x <= 0)%R -> (IZR s - 1 < x <= IZR s)%R /\ s <= 0).
Proof.
  intros Es Hi. destruct (gen_samples_inv _ _ Es) as (_ & _ & _ & _ & Hn).
  specialize (Hn i Hi).
  destruct (sample_at_inv _ _ _ Hn) as (x & Ex & Hs).
  destruct (scaled_value_inv _ _ _ Ex) as (w & Ew & Hx).
  exists w, x. split; [exact Ew|]. split; [exact Ex|]. split; [exact Hx|].
  cbv zeta. rewrite Hs. split; [reflexivity|].
  split; [apply py_int_nonneg|apply py_int_nonpos].
Qed.

Lemma quantization_truncates_witness :
  exists samples x,
    @gen_samples rounded_sin default_params = Ok samples /\
    @scaled_value rounded_sin default_params 150 = Ok (Fin x) /\
    nth 150 samples 0 = py_int x.
Proof.
  destruct (@gen_samples_default rounded_sin rounded_sin_range)
    as (samples & _ & Es & Hl & _).
  assert (150 < length samples)%nat as Hi by lia.
  destruct (@quantization_truncates rounded_sin default_params samples 150 Es Hi)
    as (w & x & _ & Ex & _ & Hs & _).
  exists samples, x. split; [exact Es|]. split; [exact Ex|exact Hs].
Defined.

(** ** Opening and writing the file *)

Lemma open_wb_cases (fs : FS) :
  ((parent_missing fs \/ dirs fs output_path = true \/
    can_write fs output_path = false) /\
   exists e, open_wb fs output_path = Raise e /\ is_OSError e = true) \/
  (~ parent_missing fs /\ dirs fs output_path = false /\
   can_write fs output_path = true /\
   open_wb fs output_path = Ok (set_file fs output_path [])).
Proof.
  unfold parent_missing, open_wb.
  destruct (is_file fs (dirname output_path)) eqn:F.
  { left. split; [tauto|]. exists NotADirectoryError. now split. }
  destruct (dir_exists fs (dirname output_path)) eqn:D; cbn [negb].
  - destruct (dirs fs output_path) eqn:P.
    + left. split; [tauto|]. exists IsADirectoryError. now split.
    + destruct (can_write fs output_path) eqn:W; cbn [negb].
      * right. split; [|now repeat split]. intros [H|H]; discriminate H.
      * left. split; [tauto|]. exists PermissionError. now split.
  - left. split; [tauto|]. exists FileNotFoundError. now split.
Qed.

Lemma files_set_file (fs : FS) (data : list byte) :
  files (set_file fs output_path data) output_path = Some data.
Proof. unfold set_file; cbn [files]. now rewrite String.eqb_refl. Qed.

Lemma create_open_fails {L : Libm} (p : AudioParameters) (fs : FS)
    (data : list byte) (e : PyError) :
  wav_data p = Ok data -> open_wb fs output_path = Raise e ->
  create_test_audio p fs = (fs, Raise e).
Proof. intros H1 H2. unfold create_test_audio. now rewrite H1, H2. Qed.

Lemma create_written {L : Libm} (p : AudioParameters) (fs : FS) (data : list byte) :
  wav_data p = Ok data ->
  open_wb fs output_path = Ok (set_file fs output_path []) ->
  Z.of_nat (length data) <= room fs output_path ->
  create_test_audio p fs =
    (set_file (set_file fs output_path []) output_path data, Ok tt).
Proof.
  intros H1 H2 H3. unfold create_test_audio, write_all. rewrite H1, H2.
  cbn [room set_file].
  destruct (Z.leb_spec (Z.of_nat (length data)) (room fs output_path));
    [reflexivity|lia].
Qed.

Lemma create_write_fails {L : Libm} (p : AudioParameters) (fs : FS)
    (data : list byte) :
  wav_data p = Ok data ->
  open_wb fs output_path = Ok (set_file fs output_path []) ->
  room fs output_path < Z.of_nat (length data) ->
  create_test_audio p fs =
    (set_file (set_file fs output_path []) output_path
       (firstn (Z.to_nat (room fs output_path)) data), Raise OSError).
Proof.
  intros H1 H2 H3. unfold create_test_audio, write_all. rewrite H1, H2.
  cbn [room set_file].
  destruct (Z.leb_spec (Z.of_nat (length data)) (room fs output_path));
    [lia|reflexivity].
Qed.

Lemma create_raises_early {L : Libm} (p : AudioParameters) (fs : FS) (e : PyError) :
  wav_data p = Raise e -> create_test_audio p fs = (fs, Raise e).
Proof. intros H. unfold create_test_audio. now rewrite H. Qed.

(** ** Invalid parameters *)

Lemma wav_data_zero_rate {L : Libm} :
  wav_data zero_rate_params = Ok (header_bytes 0 0 ++ []).
Proof.
  assert (num_samples zero_rate_params = Ok 0) as En
    by (now apply num_samples_zero_rate).
  apply (wav_data_Ok zero_rate_params 0 [] En).
  - unfold gen_samples. rewrite En. reflexivity.
  - unfold encodable. cbn [sample_rate zero_rate_params].
    repeat split; try lia. constructor.
Qed.

(** C6 (invalid input), as stated: with sample_rate = 0 the program fails
    with InvalidParameter before any file is written.  It does not: the
    loop never runs, nothing raises, and a 44-byte header-only file is
    written. *)
Lemma zero_rate_not_rejected :
  sample_rate zero_rate_params = 0 /\
  forall L : Libm, exists fs' out,
    @create_test_audio L zero_rate_params fs_ready = (fs', Ok tt) /\
    files fs' output_path = Some out /\ length out = 44%nat.
Proof.
  split; [reflexivity|]. intros L. eexists. eexists. split; [|split].
  - apply (create_written _ _ _ wav_data_zero_rate); [reflexivity|].
    rewrite length_app, header_bytes_length. simpl. lia.
  - apply files_set_file.
  - rewrite length_app, header_bytes_length. reflexivity.
Qed.

(** C6 (invalid input), amended: the program has no parameter check and no
    InvalidParameter error.  If sample_rate < 0, or if the sample count
    int(sample_rate * duration) is negative, the program fails before the
    file is opened, with [struct.error] raised while packing the header
    unless the arithmetic before it raised OverflowError or ValueError, and
    the file system is left as it was.  Building the bytes has no side
    effect: whenever it raises, the file system is untouched. *)
Theorem invalid_parameters_fail {L : Libm} (p : AudioParameters) (fs : FS) :
  sample_rate p < 0 \/ (exists n, num_samples p = Ok n /\ n < 0) ->
  (exists e, create_test_audio p fs = (fs, Raise e) /\
     is_OSError e = false /\
     (e = StructError \/ gen_samples p = Raise e)) /\
  (forall fs0 e, wav_data p = Raise e ->
     create_test_audio p fs0 = (fs0, Raise e)).
Proof.
  intros H. split; [|intros fs0 e; apply create_raises_early].
  destruct (wav_data p) as [out|e] eqn:E.
  - exfalso. apply wav_data_inv in E.
    destruct E as (n & samples & En & _ & _ & _ & F2 & _ & F4 & _).
    unfold fits_u32 in F2, F4.
    destruct H as [H|(n' & En' & H)]; [lia|].
    rewrite En in En'. apply Ok_inj in En'. lia.
  - exists e. split; [now apply create_raises_early|].
    destruct (wav_data_Raise p e E) as [G|[-> _]].
    + split; [|now right].
      destruct (gen_samples_Raise p e G) as [->| ->]; reflexivity.
    + split; [reflexivity|now left].
Qed.

Lemma num_samples_negative_duration :
  num_samples negative_duration_params = Ok (-48000).
Proof.
  destruct (num_samples_Ok negative_duration_params 16) as (En & _ & _).
  - simpl. lia.
  - lia.
  - cbn [sample_rate duration negative_duration_params].
    replace (48000 * -1)%R with (IZR (-48000)) by (simpl; lra).
    rewrite <- abs_IZR. apply IZR_le_bpow; simpl; lia.
  - rewrite En. cbn [sample_rate duration negative_duration_params].
    replace (48000 * -1)%R with (IZR (-48000)) by (simpl; lra).
    rewrite RN_exact by (apply representable_IZR; simpl; lia).
    f_equal. apply py_int_IZR.
Qed.

Lemma invalid_parameters_fail_witness :
  exists e,
    @create_test_audio rounded_sin negative_duration_params fs_ready =
      (fs_ready, Raise e) /\ is_OSError e = false.
Proof.
  destruct (@invalid_parameters_fail rounded_sin negative_duration_params fs_ready)
    as [(e & He & Hos & _) _].
  - right. exists (-48000). split; [exact num_samples_negative_duration|lia].
  - exists e. now split.
Defined.

(** ** Writing the output *)

(** C7 (writing the output), as stated: the program creates the parent
    directory of the output path as needed.  It does not: in a file system
    where nothing forbids creating [debug-audio] but the directory is
    missing, the program raises FileNotFoundError and the file system is
    unchanged. *)
Lemma parent_directory_not_created :
  (dirs fs_bare (dirname output_path) = false /\
   can_write fs_bare (dirname output_path) = true) /\
  forall L : Libm, sin_range L ->
    @create_48k_test_audio L fs_bare = (fs_bare, Raise FileNotFoundError).
Proof.
  split; [now split|]. intros L HL.
  destruct (wav_data_default HL) as (samples & _ & _ & Ew).
  unfold create_48k_test_audio.
  apply (create_open_fails _ _ _ _ Ew). reflexivity.
Qed.

(** C7 (writing the output), amended: the program never creates a
    directory, and lines 62-63 fail with an IOError (an OSError) exactly
    when the parent directory of the output path does not exist (or is not
    a directory) or the path is not writable: it is a directory, it may not
    be written, or the device does not take the 96044 bytes. *)
Theorem write_outcome {L : Libm} (fs : FS) :
  sin_range L ->
  let fs' := fst (create_48k_test_audio fs) in
  let r := snd (create_48k_test_audio fs) in
  dirs fs' = dirs fs /\
  ((exists e, r = Raise e /\ is_OSError e = true) <->
     parent_missing fs \/ not_writable fs 96044).
Proof.
  intros HL. destruct (wav_data_default HL) as (samples & _ & Hl & Ew).
  assert (Z.of_nat (length (header_bytes 48000 48000 ++
            flat_map (le_bytes 2) samples)) = 96044) as Hlen
    by (rewrite wav_length, Hl; reflexivity).
  cbv zeta. unfold create_48k_test_audio, not_writable.
  destruct (open_wb_cases fs) as [(Hr & e & He & Hos)|(Hp & Hd & Hw & Ho)].
  - rewrite (create_open_fails _ _ _ _ Ew He). cbn [fst snd].
    split; [reflexivity|].
    split; [intros _; tauto|]. intros _. exists e. now split.
  - destruct (Z_le_gt_dec 96044 (room fs output_path)) as [Hroom|Hroom].
    + rewrite (create_written _ _ _ Ew Ho) by lia. cbn [fst snd].
      split; [reflexivity|].
      split; [intros (e & C & _); discriminate C|].
      intros [C|[C|[C|C]]]; [contradiction|congruence|congruence|lia].
    + rewrite (create_write_fails _ _ _ Ew Ho) by lia. cbn [fst snd].
      split; [reflexivity|].
      split; [intros _; right; right; right; lia|].
      intros _. exists OSError. now split.
Qed.

Lemma write_outcome_witness :
  parent_missing fs_bare /\
  exists e, snd (@create_48k_test_audio rounded_sin fs_bare) = Raise e /\
    is_OSError e = true.
Proof.
  assert (parent_missing fs_bare) as Hm by (right; reflexivity).
  split; [exact Hm|].
  destruct (@write_outcome rounded_sin fs_bare rounded_sin_range) as (_ & _ & H).
  apply H. now left.
Defined.


(** ** Periodicity *)






(** * Further properties of the program *)

(** ** The generation loop *)

Lemma sample_at_params {L : Libm} (p q : AudioParameters) (i : Z) :
  sample_rate q = sample_rate p -> frequency q = frequency p ->
  amplitude q = amplitude p -> sample_at q i = sample_at p i.
Proof.
  intros Hsr Hf Ha. unfold sample_at, scaled_value, angle.
  now rewrite Hsr, Hf, Ha.
Qed.

Lemma gen_samples_zero_rate {L : Libm} (p : AudioParameters) :
  sample_rate p = 0 -> gen_samples p = Ok [].
Proof.
  intros H. unfold gen_samples. rewrite (num_samples_zero_rate p H). reflexivity.
Qed.

(** X1.  The division of line 24 never fails: with a zero sample rate the
    loop has no iteration and the buffer is empty, and whatever the
    parameters, the only exceptions lines 18-29 can raise are
    OverflowError and ValueError, so never ZeroDivisionError. *)
Theorem generation_never_divides_by_zero {L : Libm} (p : AudioParameters) :
  (sample_rate p = 0 -> gen_samples p = Ok []) /\
  (forall e, gen_samples p = Raise e -> e = OverflowError \/ e = ValueError) /\
  gen_samples p <> Raise ZeroDivisionError.
Proof.
  split; [apply gen_samples_zero_rate|]. split; [apply gen_samples_Raise|].
  intros H. destruct (gen_samples_Raise p _ H) as [E|E]; discriminate E.
Qed.

Lemma angle_at_zero (p : AudioParameters) (w : R) :
  angle p 0 = Ok (Fin w) -> w = 0%R.
Proof.
  intros H. destruct (angle_inv _ _ _ H) as (_ & E).
  replace (IZR 0 / IZR (sample_rate p))%R with 0%R in E
    by (unfold Rdiv; now rewrite Rmult_0_l).
  rewrite RN_0 in E. symmetry in E. now apply fmul_0_r in E.
Qed.

(** X2.  With a C library whose sine of zero is zero, the first sample of
    a non-empty buffer is 0, whatever the parameters. *)
Theorem first_sample_is_zero {L : Libm} (p : AudioParameters) (samples : list Z) :
  sin_zero L -> gen_samples p = Ok samples -> (0 < length samples)%nat ->
  nth 0 samples 0 = 0.
Proof.
  intros HZ Es Hl. destruct (gen_samples_inv _ _ Es) as (_ & _ & _ & _ & Hn).
  specialize (Hn 0%nat Hl). change (Z.of_nat 0) with 0 in Hn.
  destruct (sample_at_inv _ _ _ Hn) as (x & Ex & ->).
  destruct (scaled_value_inv _ _ _ Ex) as (w & Ew & ->).
  rewrite (angle_at_zero p w Ew). rewrite HZ, Rmult_0_r, RN_0, Rmult_0_l, RN_0.
  change 0%R with (IZR 0). apply py_int_IZR.
Qed.

Lemma first_sample_is_zero_witness :
  exists samples, @gen_samples rounded_sin default_params = Ok samples /\
    (0 < length samples)%nat /\ nth 0 samples 0 = 0.
Proof.
  destruct (@gen_samples_default rounded_sin rounded_sin_range)
    as (samples & _ & Es & Hl & _).
  assert (0 < length samples)%nat as Hi by lia.
  exists samples. split; [exact Es|]. split; [exact Hi|].
  exact (@first_sample_is_zero rounded_sin default_params samples
           rounded_sin_zero Es Hi).
Defined.

(** X3.  Each sample depends on its index, the sample rate, the frequency
    and the amplitude only: shortening the duration, all else equal and
    the sample rate non-negative, yields a prefix of the longer buffer. *)
Theorem shorter_duration_gives_prefix {L : Libm} (p q : AudioParameters)
    (sp sq : list Z) :
  sample_rate q = sample_rate p -> frequency q = frequency p ->
  amplitude q = amplitude p ->
  0 <= sample_rate p -> (duration q <= duration p)%R ->
  gen_samples p = Ok sp -> gen_samples q = Ok sq ->
  sq = firstn (length sq) sp /\ (length sq <= length sp)%nat.
Proof.
  intros Hsr Hf Ha H0 Hd Hp Hq.
  destruct (gen_samples_inv _ _ Hp) as (np & Np & Mp & Lp & _).
  destruct (gen_samples_inv _ _ Hq) as (nq & Nq & Mq & Lq & _).
  destruct (num_samples_inv _ _ Np) as (xp & _ & -> & ->).
  destruct (num_samples_inv _ _ Nq) as (xq & _ & -> & ->).
  rewrite Hsr in *.
  set (np := py_int (RN (RN (IZR (sample_rate p)) * duration p))) in *.
  set (nq := py_int (RN (RN (IZR (sample_rate p)) * duration q))) in *.
  assert (nq <= np) as Hn.
  { apply py_int_monotone, RN_monotone.
    assert (0 <= RN (IZR (sample_rate p)))%R
      by (apply RN_nonneg, (IZR_le 0); exact H0).
    nra. }
  rewrite (range_firstn nq np Hn) in Mq.
  rewrite (mapM_ext (sample_at q) (sample_at p)) in Mq
    by (intros a _; now apply sample_at_params).
  rewrite (mapM_firstn _ _ _ (Z.to_nat nq) Mp) in Mq.
  apply Ok_inj in Mq. rewrite Lq, Lp. split; [now symmetry|lia].
Qed.

Lemma shorter_duration_gives_prefix_witness :
  exists sp sq,
    @gen_samples rounded_sin default_params = Ok sp /\
    @gen_samples rounded_sin half_second_params = Ok sq /\
    Z.of_nat (length sq) = 24000 /\
    sq = firstn (length sq) sp.
Proof.
  destruct (@gen_samples_default rounded_sin rounded_sin_range)
    as (sp & _ & Ep & _ & _).
  assert (Z.abs 440 <= 2 ^ 53) as H0 by (simpl; lia).
  assert (0 <= 1 / 2 <= 86400)%R as H1 by lra.
  assert (48000 * (1 / 2) = IZR 24000)%R as H2 by lra.
  destruct (@gen_samples_48k rounded_sin 440 (1 / 2) 24000 rounded_sin_range
              H0 H1 H2) as (sq & _ & Eq & Hl & _).
  exists sp, sq. split; [exact Ep|]. split; [exact Eq|]. split; [lia|].
  apply (@shorter_duration_gives_prefix rounded_sin default_params
           half_second_params sp sq); try reflexivity;
    try exact Ep; try exact Eq; simpl; [lia|lra].
Defined.

(** ** The encoded bytes *)

Lemma wav_data_size_fields {L : Libm} (p : AudioParameters) (out : list byte) :
  wav_data p = Ok out ->
  exists n, num_samples p = Ok n /\
    u32_at 4 out = 36 + 2 * n /\ u32_at 40 out = 2 * n /\
    Z.of_nat (length out) = 44 + 2 * n.
Proof.
  intros H.
  destruct (wav_data_inv _ _ H) as (n & samples & Hn & _ & Hl & F1 & F2 & F3 & F4 & _ & ->).
  exists n. split; [exact Hn|].
  pose proof (header_bytes_layout (sample_rate p) n
                (flat_map (le_bytes 2) samples) F1 F2 F3 F4) as Hlay.
  unfold header_layout in Hlay. cbv zeta in Hlay.
  destruct Hlay as (_ & E4 & _ & _ & _ & _ & _ & _ & _ & _ & _ & _ & E40).
  rewrite wav_length, Hl. repeat split; assumption.
Qed.

(** X4.  In every byte sequence the program produces, the two size fields
    agree with the sequence itself: the RIFF size at offset 4 is the total
    length minus 8, the data size at offset 40 is the total length minus
    the 44 header bytes, and the total is 44 + 2 * num_samples. *)
Theorem size_fields_match_length {L : Libm} (p : AudioParameters) (out : list byte) :
  wav_data p = Ok out ->
  u32_at 4 out + 8 = Z.of_nat (length out) /\
  u32_at 40 out + 44 = Z.of_nat (length out) /\
  exists n, num_samples p = Ok n /\ Z.of_nat (length out) = 44 + 2 * n.
Proof.
  intros H. destruct (wav_data_size_fields p out H) as (n & Hn & E4 & E40 & Hl).
  split; [lia|]. split; [lia|]. exists n. now split.
Qed.

Lemma size_fields_match_length_witness :
  exists out, @wav_data rounded_sin default_params = Ok out /\
    u32_at 4 out = 96036 /\ u32_at 40 out = 96000.
Proof.
  destruct (@wav_data_default rounded_sin rounded_sin_range)
    as (samples & _ & Hl & Eo).
  eexists. split; [exact Eo|].
  destruct (@size_fields_match_length rounded_sin default_params _ Eo)
    as (E1 & E2 & _).
  rewrite wav_length, Hl in E1, E2. split; lia.
Defined.

(** X5.  The payload is the sample buffer: in every byte sequence the
    program produces, the little-endian signed 16-bit value at offset
    44 + 2*i is sample i, for every index i of the buffer. *)
Theorem samples_read_back {L : Libm} (p : AudioParameters) (out : list byte)
    (samples : list Z) (i : nat) :
  wav_data p = Ok out -> gen_samples p = Ok samples ->
  (i < length samples)%nat ->
  i16_at (44 + 2 * i) out = nth i samples 0.
Proof.
  intros H Hs Hi.
  destruct (wav_data_inv _ _ H) as (n & samples' & _ & Hs' & _ & _ & _ & _ & _ & HF & ->).
  rewrite Hs in Hs'. apply Ok_inj in Hs'. subst samples'.
  apply i16_at_of_slice.
  - rewrite Forall_forall in HF. apply HF. now apply nth_In.
  - rewrite slice_past_header. now apply slice_flat_map_le_bytes.
Qed.

Lemma samples_read_back_witness :
  exists out samples,
    @wav_data rounded_sin default_params = Ok out /\
    @gen_samples rounded_sin default_params = Ok samples /\
    i16_at (44 + 2 * 150) out = nth 150 samples 0.
Proof.
  destruct (@wav_data_default rounded_sin rounded_sin_range)
    as (samples & Es & Hl & Eo).
  assert (150 < length samples)%nat as Hi by lia.
  eexists. exists samples. split; [exact Eo|]. split; [exact Es|].
  exact (@samples_read_back rounded_sin default_params _ samples 150 Eo Es Hi).
Defined.

Lemma wav_data_encodable {L : Libm} (p : AudioParameters) (n : Z)
    (samples : list Z) (out : list byte) :
  num_samples p = Ok n -> gen_samples p = Ok samples -> wav_data p = Ok out ->
  encodable (sample_rate p) n samples /\
  out = header_bytes (sample_rate p) n ++ flat_map (le_bytes 2) samples.
Proof.
  intros Hn Hs H.
  destruct (wav_data_inv _ _ H)
    as (n' & samples' & Hn' & Hs' & _ & F1 & F2 & F3 & F4 & HF & ->).
  rewrite Hn in Hn'. apply Ok_inj in Hn'. subst n'.
  rewrite Hs in Hs'. apply Ok_inj in Hs'. subst samples'.
  split; [|reflexivity]. unfold encodable, fits_u32 in *.
  repeat split; try assumption; lia.
Qed.

(** X6.  Once lines 18-29 have produced [n] and the buffer, lines 33-59
    produce bytes exactly when every packed field fits its format: the
    sample rate and byte rate in an unsigned 32-bit field, the two sizes
    likewise, every sample in a signed 16-bit one.  Otherwise struct.pack
    raises, and these are the only two outcomes. *)
Theorem bytes_produced_iff_encodable {L : Libm} (p : AudioParameters) (n : Z)
    (samples : list Z) :
  num_samples p = Ok n -> gen_samples p = Ok samples ->
  (wav_data p = Ok (header_bytes (sample_rate p) n ++ flat_map (le_bytes 2) samples)
     <-> encodable (sample_rate p) n samples) /\
  (wav_data p = Raise StructError <-> ~ encodable (sample_rate p) n samples) /\
  (wav_data p = Ok (header_bytes (sample_rate p) n ++ flat_map (le_bytes 2) samples)
     \/ wav_data p = Raise StructError).
Proof.
  intros Hn Hs.
  assert (wav_data p = Ok (header_bytes (sample_rate p) n ++
                           flat_map (le_bytes 2) samples) \/
          wav_data p = Raise StructError) as Hcases.
  { destruct (wav_data p) as [out|e] eqn:E.
    - left. f_equal. exact (proj2 (wav_data_encodable p n samples out Hn Hs E)).
    - right. destruct (wav_data_Raise p e E) as [G|[-> _]]; [|reflexivity].
      rewrite Hs in G. discriminate G. }
  split; [|split; [|exact Hcases]].
  - split.
    + intros E. exact (proj1 (wav_data_encodable p n samples _ Hn Hs E)).
    + intros He. now apply wav_data_Ok.
  - split.
    + intros E He. rewrite (wav_data_Ok p n samples Hn Hs He) in E. discriminate E.
    + intros Hne. destruct Hcases as [E|E]; [|exact E].
      exfalso. apply Hne.
      exact (proj1 (wav_data_encodable p n samples _ Hn Hs E)).
Qed.

Lemma bytes_produced_iff_encodable_witness :
  exists samples,
    @gen_samples rounded_sin default_params = Ok samples /\
    encodable 48000 48000 samples /\
    @wav_data rounded_sin default_params =
      Ok (header_bytes 48000 48000 ++ flat_map (le_bytes 2) samples).
Proof.
  destruct (@gen_samples_default rounded_sin rounded_sin_range)
    as (samples & Hn & Es & Hl & HF).
  assert (encodable 48000 48000 samples) as He.
  { unfold encodable. repeat split; try lia. now apply in_i16_of_bound. }
  exists samples. split; [exact Es|]. split; [exact He|].
  destruct (@bytes_produced_iff_encodable rounded_sin default_params 48000
              samples Hn Es) as ((_ & H) & _).
  exact (H He).
Defined.

Lemma representable_below_one : representable (1 - / 9007199254740992).
Proof.
  exists (2 ^ 53 - 1), (-53). split; [|simpl; lia].
  rewrite bpow_neg. simpl. lra.
Qed.

(** X7.  When |sample_rate * duration| is at most the largest binary64
    number below 1, line 18 truncates to zero samples and the program's
    bytes are the 44-byte header alone, with the RIFF size 36 and the data
    size 0. *)
Theorem sub_sample_duration_gives_header_only {L : Libm} (p : AudioParameters) :
  0 <= sample_rate p <= 2147483647 ->
  (Rabs (IZR (sample_rate p) * duration p) <= 1 - / 9007199254740992)%R ->
  exists out, wav_data p = Ok out /\ gen_samples p = Ok [] /\
    length out = 44%nat /\ u32_at 4 out = 36 /\ u32_at 40 out = 0.
Proof.
  intros Hsr Hx.
  destruct (num_samples_Ok p 0) as (Hn & _ & _); [lia|lia| |].
  { rewrite bpow_0. lra. }
  pose proof (RN_abs_le _ _ representable_below_one Hx) as HR.
  apply Rabs_bounds in HR.
  assert (py_int (RN (IZR (sample_rate p) * duration p)) = 0) as E0.
  { assert (0 <= py_int (RN (IZR (sample_rate p) * duration p)) <= 0) as B.
    { apply py_int_within; [lia|]. simpl. lra. }
    lia. }
  rewrite E0 in Hn.
  assert (gen_samples p = Ok []) as Es
    by (unfold gen_samples; rewrite Hn; reflexivity).
  assert (encodable (sample_rate p) 0 []) as He.
  { unfold encodable. repeat split; try lia. constructor. }
  pose proof (wav_data_Ok p 0 [] Hn Es He) as Eo.
  exists (header_bytes (sample_rate p) 0 ++ flat_map (le_bytes 2) []).
  split; [exact Eo|]. split; [exact Es|].
  pose proof (header_bytes_layout (sample_rate p) 0 (flat_map (le_bytes 2) []))
    as Hlay.
  unfold header_layout, fits_u32 in Hlay. cbv zeta in Hlay.
  destruct Hlay as (_ & E4 & _ & _ & _ & _ & _ & _ & _ & _ & _ & _ & E40);
    try lia.
  split; [|split; [exact E4|exact E40]].
  cbn [flat_map]. rewrite app_nil_r. apply header_bytes_length.
Qed.

Lemma sub_sample_duration_gives_header_only_witness :
  exists out, @wav_data rounded_sin short_params = Ok out /\
    @gen_samples rounded_sin short_params = Ok [] /\ length out = 44%nat.
Proof.
  assert (0 <= sample_rate short_params <= 2147483647) as H1 by (simpl; lia).
  assert (Rabs (IZR (sample_rate short_params) * duration short_params)
          <= 1 - / 9007199254740992)%R as H2.
  { simpl. apply Rabs_le. lra. }
  destruct (@sub_sample_duration_gives_header_only rounded_sin short_params H1 H2)
    as (out & Eo & Es & Hl & _).
  exists out. split; [exact Eo|]. split; [exact Es|exact Hl].
Defined.

(** ** Parameters out of the range of binary64 *)

Lemma float_of_int_finite (z : Z) :
  Z.abs z <= 2 ^ 1024 - 2 ^ 971 -> float_of_int z = Ok (Fin (RN (IZR z))).
Proof.
  intros H. unfold float_of_int.
  destruct (round_to_float_Fin (IZR z) (IZR (2 ^ 53 - 1) * bpow 971)) as [E _].
  - exists (2 ^ 53 - 1), 971. split; [reflexivity|]. simpl. lia.
  - rewrite <- abs_IZR, (bpow_IZR 971), <- mult_IZR by lia.
    apply IZR_le.
    replace ((2 ^ 53 - 1) * 2 ^ 971) with (2 ^ 1024 - 2 ^ 971); [exact H|].
    change 1024 with (53 + 971). rewrite Z.pow_add_r by lia. ring.
  - rewrite (bpow_IZR 971), (bpow_IZR 1024), <- mult_IZR by lia.
    apply IZR_lt.
    change 1024 with (53 + 971). rewrite Z.pow_add_r by lia.
    assert (0 < 2 ^ 971) by (apply Z.pow_pos_nonneg; lia). nia.
  - now rewrite E.
Qed.

Lemma bpow_1024 : bpow 1024 = (bpow 1022 * 4)%R.
Proof.
  change 1024 with (1022 + 2). rewrite bpow_add. f_equal.
  rewrite bpow_IZR by lia. reflexivity.
Qed.

(** A product beyond the largest finite number is an infinity, and an
    infinity times zero is NaN. *)
Lemma fmul_overflow_zero (x y : R) :
  (bpow 1024 <= x * y)%R -> fmul (fmul (Fin x) (Fin y)) (Fin 0) = NaN.
Proof.
  intros H. cbn [fmul]. unfold round_to_float.
  assert (bpow 1024 <= RN (x * y))%R as HR.
  { apply RN_ge_representable; [apply representable_bpow; lia|exact H]. }
  destruct (Rlt_dec (Rabs (RN (x * y))) (bpow 1024)) as [Lt|_].
  - exfalso. pose proof (Rle_abs (RN (x * y))) as Ha.
    apply (Rlt_irrefl (bpow 1024)).
    eapply Rle_lt_trans; [exact HR|]. eapply Rle_lt_trans; [exact Ha|exact Lt].
  - cbn [fmul]. destruct (Req_dec_T 0 0) as [_|N]; [reflexivity|now destruct N].
Qed.

Lemma sample_at_huge_frequency {L : Libm} (p : AudioParameters) :
  2 ^ 1022 <= frequency p <= 2 ^ 1024 - 2 ^ 971 -> sample_rate p <> 0 ->
  sample_at p 0 = Raise ValueError.
Proof.
  intros Hf Hsr.
  unfold sample_at, scaled_value, angle.
  destruct (int_truediv_Ok 0 (sample_rate p) 0 Hsr) as [Et _]; [lia|simpl; lia|].
  rewrite Et. rewrite float_of_int_finite by lia. cbn [bind].
  rewrite two_pi_float.
  replace (IZR 0 / IZR (sample_rate p))%R with 0%R
    by (unfold Rdiv; now rewrite Rmult_0_l).
  rewrite RN_0, fmul_overflow_zero; [reflexivity|].
  assert (bpow 1022 <= RN (IZR (frequency p)))%R as HF.
  { apply RN_ge_representable; [apply representable_bpow; lia|].
    rewrite bpow_IZR by lia. apply IZR_le. lia. }
  rewrite bpow_1024. pose proof two_pi_bounds as [T1 _].
  pose proof (bpow_pos 1022) as P.
  set (b := bpow 1022) in *. set (F := RN (IZR (frequency p))) in *. nra.
Qed.

(** X8.  A frequency of 2^1022 or more that still converts to a float
    makes the run fail with ValueError at the first sample, before any
    file is touched: 2 * math.pi * frequency overflows to infinity, t is
    0.0 so the argument of math.sin is NaN, and int() refuses NaN. *)
Theorem huge_frequency_raises_ValueError {L : Libm} (p : AudioParameters)
    (n : Z) (fs : FS) :
  2 ^ 1022 <= frequency p <= 2 ^ 1024 - 2 ^ 971 -> sample_rate p <> 0 ->
  num_samples p = Ok n -> 0 < n ->
  sample_at p 0 = Raise ValueError /\ gen_samples p = Raise ValueError /\
  create_test_audio p fs = (fs, Raise ValueError).
Proof.
  intros Hf Hsr Hn Hpos.
  pose proof (sample_at_huge_frequency p Hf Hsr) as E0.
  split; [exact E0|]. split.
  - unfold gen_samples. rewrite Hn. cbn [bind]. rewrite (range_pos n Hpos).
    cbn [mapM]. rewrite E0. reflexivity.
  - apply create_raises_early. unfold wav_data. rewrite Hn. cbn [bind].
    rewrite (range_pos n Hpos). cbn [mapM]. rewrite E0. reflexivity.
Qed.

Lemma huge_frequency_raises_ValueError_witness :
  @gen_samples rounded_sin huge_frequency_params = Raise ValueError /\
  @create_test_audio rounded_sin huge_frequency_params fs_ready =
    (fs_ready, Raise ValueError).
Proof.
  assert (num_samples huge_frequency_params = Ok 48000) as Hn.
  { destruct (@gen_samples_default rounded_sin rounded_sin_range)
      as (samples & Hn & _). exact Hn. }
  assert (2 ^ 1022 <= frequency huge_frequency_params <= 2 ^ 1024 - 2 ^ 971) as Hf.
  { cbn [frequency huge_frequency_params]. split; apply Z.leb_le; vm_compute; reflexivity. }
  assert (sample_rate huge_frequency_params <> 0) as Hsr by (simpl; lia).
  assert (0 < 48000) as Hpos by lia.
  destruct (@huge_frequency_raises_ValueError rounded_sin huge_frequency_params
              48000 fs_ready Hf Hsr Hn Hpos) as (_ & E1 & E2).
  split; [exact E1|exact E2].
Defined.

(** X9.  Valid parameters of moderate size never raise before the file is
    opened: with a sample rate that fits 31 bits, a frequency of at most
    2^53 and at most 2^30 samples, lines 18-59 produce the sample count,
    the buffer and 44 + 2 * num_samples bytes. *)
Theorem moderate_parameters_never_raise {L : Libm} (p : AudioParameters) :
  sin_range L -> valid_params p ->
  sample_rate p <= 2147483647 -> frequency p <= 2 ^ 53 ->
  (IZR (sample_rate p) * duration p <= 1073741824)%R ->
  exists n samples out,
    num_samples p = Ok n /\ gen_samples p = Ok samples /\ wav_data p = Ok out /\
    0 <= n <= 1073741824 /\ Z.of_nat (length samples) = n /\
    Z.of_nat (length out) = 44 + 2 * n.
Proof.
  intros HL (V1 & V2 & V3 & V4) Hsr Hf Hx.
  assert (0 < IZR (sample_rate p))%R as S0 by (apply (IZR_lt 0); lia).
  assert (0 <= IZR (sample_rate p) * duration p)%R as X0 by nra.
  destruct (gen_samples_Ok p HL) as (n & samples & En & Es & Hn & Hl & HF).
  - lia.
  - lia.
  - rewrite Rabs_pos_eq by exact X0.
    apply Rle_trans with (IZR 1073741824); [exact Hx|].
    apply IZR_le_bpow; simpl; lia.
  - rewrite Rabs_pos_eq; lra.
  - assert (0 <= n <= 1073741824) as Bn.
    { subst n. pose proof (RN_nonneg _ X0) as R0.
      assert (representable (IZR 1073741824)) as Rp
        by (apply representable_IZR; simpl; lia).
      pose proof (RN_le_representable _ _ Rp Hx) as R1.
      apply py_int_within; [lia|]. lra. }
    assert (encodable (sample_rate p) n samples) as He.
    { unfold encodable. repeat split; try lia. now apply in_i16_of_bound. }
    exists n, samples, (header_bytes (sample_rate p) n ++
                        flat_map (le_bytes 2) samples).
    split; [exact En|]. split; [exact Es|].
    split; [now apply wav_data_Ok|]. split; [exact Bn|].
    assert (Z.of_nat (length samples) = n) as El by lia.
    split; [exact El|]. rewrite wav_length, El. reflexivity.
Qed.

Lemma moderate_parameters_never_raise_witness :
  exists n samples out,
    num_samples default_params = Ok n /\
    @gen_samples rounded_sin default_params = Ok samples /\
    @wav_data rounded_sin default_params = Ok out /\
    Z.of_nat (length out) = 44 + 2 * n.
Proof.
  assert (sample_rate default_params <= 2147483647) as H1 by (simpl; lia).
  assert (frequency default_params <= 2 ^ 53) as H2 by (simpl; lia).
  assert (IZR (sample_rate default_params) * duration default_params
          <= 1073741824)%R as H3 by (simpl; lra).
  destruct (@moderate_parameters_never_raise rounded_sin default_params
              rounded_sin_range default_params_valid H1 H2 H3)
    as (n & samples & out & En & Es & Eo & _ & _ & Hl).
  exists n, samples, out. repeat split; assumption.
Defined.

(** ** What the run leaves in the file system *)


